(** * FileMap.cpp: the block-file cache of BitcoinArmory

    A shallow embedding of [src/cppForSwig/FileMap.cpp]: the per-file
    region [FileMap], the accessor [BlockFileAccessor] with its region
    table, usage clock, eviction sweep and prefetch slot, and the caller
    side container [FileMapContainer].

    Conventions of the embedding
    - unsigned machine integers are [Z] with the wrap-around written out
      ([wrap32], [wrap64]);
    - every [FileMap] lives in a heap of objects managed by
      [shared_ptr]; a [shared_ptr<FileMap>] is a location of that heap and
      [use_count] counts the table slots and the outside [shared_ptr]
      objects that hold the location;
    - calls thread the machine state explicitly and end in [Ok], in
      [Throw] (a C++ exception, with the state at the throw) or in
      [Undefined] (undefined behaviour: a vector indexed out of range, a
      null [shared_ptr] dereferenced);
    - the operating system is a [World]: what [open] and [read] answer;
    - calls are sequential: a call, or a pass of the prefetch thread, runs
      to its end before the next one starts, and the answer of
      [try_lock] is an argument of the call;
    - a [FileMap] that no [shared_ptr] holds any more stays in the heap,
      where nothing reaches it. *)

From Stdlib Require Import ZArith Lia.
From Stdlib.Init Require Import Byte.
From stdpp Require Import base option list gmap fin_maps strings sorting.

Local Open Scope Z_scope.

(** ** Machine integers *)

Definition UINT32_MAX : Z := 2 ^ 32 - 1.
Definition wrap32 (z : Z) : Z := z mod 2 ^ 32.
Definition wrap64 (z : Z) : Z := z mod 2 ^ 64.

(** ** Data *)

(** A catalog entry, [BlkFile]: the fields the source reads. *)
Record BlkFile := mkBlkFile {
  fnum : Z;
  path : string;
  filesize : Z
}.

(** The two tags the source assigns and tests. *)
Inductive FETCH_STATE := FETCH_FETCHED | FETCH_ACCESSED.

(** Modelled from the spec: [BFA_PREFETCH] is declared in the header, which
    is not among the sources.  The source names [PREFETCH_NONE] and
    [PREFETCH_FORWARD] and treats every other mode alike, in the [else] of
    lines 168-171; the spec gives that mode as backward. *)
Inductive BFA_PREFETCH := PREFETCH_NONE | PREFETCH_FORWARD | PREFETCH_BACKWARD.

(** A byte of a buffer obtained from [malloc]: indeterminate until it is
    written. *)
Inductive memval := Undef | Byte (b : byte).

Record FileMap := mkFileMap {
  filemap_ : list memval;
  mapsize_ : Z;
  fnum_ : Z;
  lastSeenCumulated_ : Z;
  fetch_ : FETCH_STATE
}.

(** What [bdr.setRef(ptr, size)] makes visible: the bytes of the view. *)
Definition BinaryDataRef := list memval.

(** A location of the heap of [FileMap] objects. *)
Definition loc := nat.

(** [FileMapContainer]: [current_] is a [shared_ptr<FileMap>] member,
    given by the address of its cell; [prev_] is a pointer to a
    [shared_ptr<FileMap>] that lives elsewhere, or null. *)
Record FileMapContainer := mkContainer {
  current_ : nat;
  prev_ : option nat
}.

(** The accessor and the memory it works on.  [cells] are the
    [shared_ptr<FileMap>] objects outside the table (an absent cell is a
    null pointer). *)
Record State := mkState {
  heap : list FileMap;
  cells : gmap nat loc;
  blkMaps_ : gmap Z loc;
  lastSeenCumulative_ : Z;
  nextThreshold_ : Z;
  prefetchFileNum_ : Z
}.

Definition set_heap (h : list FileMap) (s : State) : State :=
  mkState h (cells s) (blkMaps_ s) (lastSeenCumulative_ s)
          (nextThreshold_ s) (prefetchFileNum_ s).
Definition set_cells (c : gmap nat loc) (s : State) : State :=
  mkState (heap s) c (blkMaps_ s) (lastSeenCumulative_ s)
          (nextThreshold_ s) (prefetchFileNum_ s).
Definition set_blkMaps (m : gmap Z loc) (s : State) : State :=
  mkState (heap s) (cells s) m (lastSeenCumulative_ s)
          (nextThreshold_ s) (prefetchFileNum_ s).
Definition set_lastSeenCumulative (c : Z) (s : State) : State :=
  mkState (heap s) (cells s) (blkMaps_ s) c
          (nextThreshold_ s) (prefetchFileNum_ s).
Definition set_nextThreshold (t : Z) (s : State) : State :=
  mkState (heap s) (cells s) (blkMaps_ s) (lastSeenCumulative_ s)
          t (prefetchFileNum_ s).
Definition set_prefetchFileNum (n : Z) (s : State) : State :=
  mkState (heap s) (cells s) (blkMaps_ s) (lastSeenCumulative_ s)
          (nextThreshold_ s) n.

Definition set_lastSeenCumulated (m : Z) (fm : FileMap) : FileMap :=
  mkFileMap (filemap_ fm) (mapsize_ fm) (fnum_ fm) m (fetch_ fm).
Definition set_fetch (f : FETCH_STATE) (fm : FileMap) : FileMap :=
  mkFileMap (filemap_ fm) (mapsize_ fm) (fnum_ fm) (lastSeenCumulated_ fm) f.

(** ** Outcomes of a call *)

Inductive Result (A : Type) :=
| Ok (a : A) (s : State)
| Throw (msg : string) (s : State)
| Undefined.
Arguments Ok {A} a s.
Arguments Throw {A} msg s.
Arguments Undefined {A}.

Definition M (A : Type) : Type := State → Result A.

Definition ret {A} (a : A) : M A := λ s, Ok a s.
Definition bind {A B} (m : M A) (k : A → M B) : M B :=
  λ s, match m s with
       | Ok a s' => k a s'
       | Throw e s' => Throw e s'
       | Undefined => Undefined
       end.
Definition get : M State := λ s, Ok s s.
Definition modify (f : State → State) : M unit := λ s, Ok tt (f s).
Definition throw {A} (e : string) : M A := λ s, Throw e s.
Definition undefined {A} : M A := λ _, Undefined.

Notation "'let*' x ':=' m 'in' k" := (bind m (λ x, k))
  (at level 10, x name, m at level 100, k at level 200, only parsing).
Notation "'run*' m 'in' k" := (bind m (λ _, k))
  (at level 10, m at level 100, k at level 200, only parsing).

(** [v[i]] on a [std::vector]: out of range is undefined behaviour. *)
Definition vec_at {A} (v : list A) (i : Z) : option A :=
  if i <? 0 then None else v !! Z.to_nat i.

(** ** The operating system *)

(** [disk p] is the content [open] gives access to ([None]: [open]
    returns -1); [read_result p count] is the value the one [read] call on
    that file returns when asked for [count] bytes. *)
Record World := mkWorld {
  disk : string → option (list byte);
  read_result : string → Z → Z
}.

(** Bytes a [read] of [count] bytes really moves: what it reports, never
    more than asked for nor than the file holds, nothing on an error. *)
Definition transferred (w : World) (p : string) (content : list byte)
    (count : Z) : nat :=
  Z.to_nat (Z.min (read_result w p count)
                  (Z.min count (Z.of_nat (length content)))).

(** The order of the keys of a [std::map<uint32_t, ...>]. *)
Definition key_le (a b : Z * loc) : Prop := a.1 ≤ b.1.
#[global] Instance key_le_dec : RelDecision key_le.
Proof. intros a b. unfold key_le. apply _. Defined.

(** Number of slots of a map (table or cells) that hold location [l]. *)
Definition holders `{Countable K} (m : gmap K loc) (l : loc) : nat :=
  size (filter (λ kv, kv.2 = l) m).

(** [shared_ptr::use_count()] of the object at [l]. *)
Definition use_count (s : State) (l : loc) : nat :=
  holders (blkMaps_ s) l + holders (cells s) l.

(** A region not yet handed out: absent from the table, or resident with
    the tag the constructor gave it. *)
Definition first_touch (s : State) (fnum : Z) : Prop :=
  match blkMaps_ s !! fnum with
  | Some l => ∃ fm, heap s !! l = Some fm ∧ fetch_ fm = FETCH_FETCHED
  | None => True
  end.

Section Accessor.

Variable w : World.
(** Members fixed at construction, and the constant [threshold_]. *)
Variable blkFiles_ : list BlkFile.
Variable prefetch_ : BFA_PREFETCH.
Variable threshold_ : Z.

(** *** FileMap *)

(** [FileMap::FileMap(BlkFile&)], lines 3-29.  The value of [read] is
    dropped by the source, so whatever was not transferred stays as
    [malloc] left it.  [malloc] is taken to return a block: the source
    does not test it, and a null result is not modelled. *)
Definition FileMap_new (blk : BlkFile) : string + FileMap :=
  match disk w (path blk) with
  | None => inl "failed to open file"%string
  | Some content =>
      let mapsize := filesize blk in
      let buf := replicate (Z.to_nat mapsize) Undef in
      let n := transferred w (path blk) content mapsize in
      inr {| filemap_ := (Byte <$> take n content) ++ drop n buf;
             mapsize_ := mapsize;
             fnum_ := fnum blk;
             lastSeenCumulated_ := 0;
             fetch_ := FETCH_FETCHED |}
  end.

(** [FileMap::getRawBlock], lines 55-63: the view, the region with its
    mark stamped, and the clock after [fetch_add].  The view is the bytes
    of [filemap_ + offset] for a range inside the buffer; the source does
    not test the range, and outside the buffer, where reading the view is
    undefined, the list here is only what the buffer holds. *)
Definition FileMap_getRawBlock (fm : FileMap) (offset size : Z)
    (lastSeenCumulative : Z) : BinaryDataRef * FileMap * Z :=
  let bdr := take (Z.to_nat size) (drop (Z.to_nat offset) (filemap_ fm)) in
  let old := lastSeenCumulative in
  (bdr,
   set_lastSeenCumulated (wrap64 (old + size)) fm,
   wrap64 (old + size)).

(** *** BlockFileAccessor *)

(** Lines 162-171: the index handed to the prefetch thread.
    [blkFiles_->size() - 1] is computed in [size_t] (64 bits). *)
Definition nextFnum_of (fnum : Z) : Z :=
  match prefetch_ with
  | PREFETCH_FORWARD =>
      let nextFnum := wrap32 (fnum + 1) in
      if wrap64 (Z.of_nat (length blkFiles_) - 1) <? nextFnum
      then UINT32_MAX else nextFnum
  | _ => wrap32 (fnum - 1)
  end.

Definition is_accessed (f : FETCH_STATE) : bool :=
  match f with FETCH_ACCESSED => true | FETCH_FETCHED => false end.
Definition prefetching : bool :=
  match prefetch_ with PREFETCH_NONE => false | _ => true end.

(** [new FileMap(...)] into a fresh [shared_ptr]. *)
Definition alloc (fm : FileMap) : M loc :=
  λ s, Ok (length (heap s)) (set_heap (heap s ++ [fm]) s).

(** [std::map::insert]: keeps an entry that is already there. *)
Definition map_insert (k : Z) (l : loc) (m : gmap Z loc) : gmap Z loc :=
  match m !! k with Some _ => m | None => <[k := l]> m end.

Definition deref (l : loc) : M FileMap :=
  λ s, match heap s !! l with Some fm => Ok fm s | None => Undefined end.

(** [BlockFileAccessor::getFileMap], lines 146-186.  [try_lock] is the
    answer of [lock.try_lock()] on the prefetch mutex.  The reference
    returned is read at once by the caller; the embedding returns the
    location the slot holds. *)
Definition getFileMap (fnum : Z) (try_lock : bool) : M loc :=
  let* s := get in
  let* l :=
    match blkMaps_ s !! fnum with
    | Some l => ret l
    | None =>
        match vec_at blkFiles_ fnum with
        | None => undefined
        | Some blk =>
            match FileMap_new blk with
            | inl e => throw e
            | inr fm =>
                let* l := alloc fm in
                run* modify (λ s, set_blkMaps
                                    (map_insert fnum l (blkMaps_ s)) s) in
                ret l
            end
        end
    end in
  let* fm := deref l in
  run* (if negb (is_accessed (fetch_ fm)) && prefetching
        then
          let nextFnum := nextFnum_of fnum in
          if try_lock then modify (set_prefetchFileNum nextFnum)
          else ret tt
        else ret tt) in
  run* modify (λ s, set_heap
                      (<[l := set_fetch FETCH_ACCESSED fm]> (heap s)) s) in
  ret l.

(** The state after lines 158-182 of [getFileMap]: the pending slot
    once the prefetch thread has been signalled. *)
Definition signalled (fm : FileMap) (try_lock : bool) (fnum : Z)
    (s : State) : State :=
  if negb (is_accessed (fetch_ fm)) && prefetching
  then if try_lock then set_prefetchFileNum (nextFnum_of fnum) s else s
  else s.

(** The state after line 184 of [getFileMap]. *)
Definition touched (l : loc) (fm : FileMap) (s : State) : State :=
  set_heap (<[l := set_fetch FETCH_ACCESSED fm]> (heap s)) s.

(** The index is resident, or its catalog entry has a file that opens. *)
Definition loadable (s : State) (fnum : Z) : Prop :=
  is_Some (blkMaps_ s !! fnum)
  ∨ ∃ blk fm, vec_at blkFiles_ fnum = Some blk ∧ FileMap_new blk = inr fm.

(** [BlockFileAccessor::dropFileMap], lines 189-193. *)
Definition dropFileMap (fnum : Z) : M unit :=
  modify (λ s, set_blkMaps (delete fnum (blkMaps_ s)) s).

(** Lines 127-128: the staleness test, in 64-bit unsigned arithmetic. *)
Definition stale (s : State) (fm : FileMap) : bool :=
  wrap64 (lastSeenCumulated_ fm + threshold_) <? lastSeenCumulative_ s.

(** Lines 127-130: both tests that lead to [erase], for the region at
    [l]. *)
Definition evictable (s : State) (l : loc) : bool :=
  match heap s !! l with
  | Some fm => stale s fm && (use_count s l =? 1)%nat
  | None => false
  end.

(** One turn of the loop of lines 125-138 at the entry [kv]. *)
Definition sweep_entry (s : State) (kv : Z * loc) : State :=
  match heap s !! kv.2 with
  | Some fm =>
      if stale s fm
      then if (use_count s kv.2 =? 1)%nat
           then set_blkMaps (delete kv.1 (blkMaps_ s)) s
           else s
      else s
  | None => s
  end.

(** The table after the loop has visited the entries [es]. *)
Definition swept (s : State) (es : list (Z * loc)) (k : Z) : option loc :=
  match blkMaps_ s !! k with
  | Some l => if bool_decide (k ∈ es.*1) && evictable s l
              then None else Some l
  | None => None
  end.

(** Entries in the order [std::map] iterates: ascending keys. *)
Definition entries (m : gmap Z loc) : list (Z * loc) :=
  merge_sort key_le (map_to_list m).

(** Lines 122-141: the sweep and the new trigger. *)
Definition sweep (s : State) : State :=
  let s' := foldl sweep_entry s (entries (blkMaps_ s)) in
  set_nextThreshold (wrap64 (lastSeenCumulative_ s' + threshold_)) s'.

(** Lines 102-109: the region the container lets the call reuse. *)
Definition from_container (fnum : Z) (fmpPtr : option FileMapContainer)
    (s : State) : option loc :=
  c ← fmpPtr ;
  p ← prev_ c ;
  l ← cells s !! p ;
  fm ← heap s !! l ;
  if fnum_ fm =? fnum then Some l else None.

(** [BlockFileAccessor::getRawBlock], lines 99-143. *)
Definition BFA_getRawBlock (fnum offset size : Z)
    (fmpPtr : option FileMapContainer) (try_lock : bool)
    : M BinaryDataRef :=
  let* s := get in
  let* l :=
    match from_container fnum fmpPtr s with
    | Some l => ret l
    | None => getFileMap fnum try_lock
    end in
  let* fm := deref l in
  let* s := get in
  let '(bdr, fm', clock') :=
    FileMap_getRawBlock fm offset size (lastSeenCumulative_ s) in
  run* modify (λ s, set_lastSeenCumulative clock'
                      (set_heap (<[l := fm']> (heap s)) s)) in
  run* match fmpPtr with
       | Some c => modify (λ s, set_cells (<[current_ c := l]> (cells s)) s)
       | None => ret tt
       end in
  let* s := get in
  run* (if nextThreshold_ s <=? lastSeenCumulative_ s
        then modify sweep else ret tt) in
  ret bdr.

(** The state after lines 114-142 of [getRawBlock], once the region
    [fm] at [l] has been chosen. *)
Definition served (l : loc) (fm : FileMap) (size : Z)
    (fmpPtr : option FileMapContainer) (s : State) : State :=
  let clock' := wrap64 (lastSeenCumulative_ s + size) in
  let s2 := set_lastSeenCumulative clock'
              (set_heap (<[l := set_lastSeenCumulated clock' fm]> (heap s))
                 s) in
  let s3 := match fmpPtr with
            | Some c => set_cells (<[current_ c := l]> (cells s2)) s2
            | None => s2
            end in
  if nextThreshold_ s3 <=? lastSeenCumulative_ s3 then sweep s3 else s3.

(** The bytes of [filemap_ + offset], [size] of them. *)
Definition view (fm : FileMap) (offset size : Z) : BinaryDataRef :=
  take (Z.to_nat size) (drop (Z.to_nat offset) (filemap_ fm)).

(** One pass of the loop of [BlockFileAccessor::prefetchThread], lines
    205-215, after a wake-up. *)
Definition prefetchThread_pass : M unit :=
  let* s := get in
  if prefetchFileNum_ s =? UINT32_MAX then ret tt
  else
    match vec_at blkFiles_ (prefetchFileNum_ s) with
    | None => undefined
    | Some blk =>
        match FileMap_new blk with
        | inl e => throw e
        | inr fm =>
            let* l := alloc fm in
            modify (λ s, set_blkMaps
                           (<[prefetchFileNum_ s := l]> (blkMaps_ s)) s)
        end
    end.

End Accessor.

(** ** Histories of calls *)

(** What happens to an accessor: the public calls, a pass of the prefetch
    thread, and the caller assigning one of its own [shared_ptr] cells
    ([dst = src], or [dst.reset()] when [src] is [None]). *)
Inductive Call :=
| CallGetRawBlock (fnum offset size : Z)
    (fmpPtr : option FileMapContainer) (try_lock : bool)
| CallDropFileMap (fnum : Z)
| PrefetchPass
| CallerAssign (dst : nat) (src : option nat).

Definition caller_assign (dst : nat) (src : option nat) (s : State) : State :=
  match src ≫= (λ c, cells s !! c) with
  | Some l => set_cells (<[dst := l]> (cells s)) s
  | None => set_cells (delete dst (cells s)) s
  end.

Section Histories.

Variable w : World.
Variable blkFiles_ : list BlkFile.
Variable prefetch_ : BFA_PREFETCH.
Variable threshold_ : Z.

(** The state after one call; [None] when the program has no defined
    continuation: undefined behaviour, or an exception that leaves the
    prefetch thread.  An exception of [getRawBlock] reaches the caller,
    who goes on with the state as it is. *)
Definition exec (c : Call) (s : State) : option State :=
  match c with
  | CallGetRawBlock fnum offset size fmpPtr try_lock =>
      match BFA_getRawBlock w blkFiles_ prefetch_ threshold_
              fnum offset size fmpPtr try_lock s with
      | Ok _ s' => Some s'
      | Throw _ s' => Some s'
      | Undefined => None
      end
  | CallDropFileMap fnum =>
      match dropFileMap fnum s with
      | Ok _ s' => Some s'
      | _ => None
      end
  | PrefetchPass =>
      match prefetch_ with
      | PREFETCH_NONE => Some s
      | _ => match prefetchThread_pass w blkFiles_ s with
             | Ok _ s' => Some s'
             | _ => None
             end
      end
  | CallerAssign dst src => Some (caller_assign dst src s)
  end.

Fixpoint run (cs : list Call) (s : State) : option State :=
  match cs with
  | [] => Some s
  | c :: cs' => match exec c s with
                | Some s' => run cs' s'
                | None => None
                end
  end.

End Histories.

(** The accessor as its constructor leaves it, lines 70-80.  The initial
    values of [nextThreshold_] and [prefetchFileNum_] are set in the
    header, which is not among the sources: they are left open. *)
Definition BFA_new (nextThreshold0 prefetchFileNum0 : Z) : State :=
  mkState [] ∅ ∅ 0 nextThreshold0 prefetchFileNum0.

(** ** Catalog, disk and state that agree *)

Section Consistency.

Variable w : World.
Variable blkFiles_ : list BlkFile.

(** The catalog describes the disk: entry [i] carries the index [i]; its
    file opens and holds at least [filesize] bytes; and the [read] of
    the constructor moves all [filesize] bytes. *)
Definition catalog_ok : Prop :=
  ∀ (i : nat) (blk : BlkFile),
    blkFiles_ !! i = Some blk →
    fnum blk = Z.of_nat i
    ∧ ∃ content : list byte,
        disk w (path blk) = Some content
        ∧ 0 ≤ filesize blk ≤ Z.of_nat (length content)
        ∧ read_result w (path blk) (filesize blk) = filesize blk.

(** The region holds the first [filesize] bytes of the file its index
    names. *)
Definition region_ok (fm : FileMap) : Prop :=
  ∃ (blk : BlkFile) (content : list byte),
    vec_at blkFiles_ (fnum_ fm) = Some blk
    ∧ disk w (path blk) = Some content
    ∧ filemap_ fm = Byte <$> take (Z.to_nat (filesize blk)) content.

(** What every state of an accessor satisfies: each region is a copy
    of its file, each slot of the table holds a region of the slot's
    index, and no [shared_ptr] dangles. *)
Record Inv (s : State) : Prop := mkInv {
  inv_heap : ∀ l fm, heap s !! l = Some fm → region_ok fm;
  inv_table : ∀ k l, blkMaps_ s !! k = Some l →
              ∃ fm, heap s !! l = Some fm ∧ fnum_ fm = k;
  inv_cells : ∀ c l, cells s !! c = Some l → is_Some (heap s !! l)
}.

End Consistency.

(** ** Ownership of the buffer: move and destruction *)

(** A [FileMap] object as it lies in memory: [filemap_] is a pointer,
    null ([None]) or the address of a block obtained from [malloc]. *)
Record FileMapObj := mkFileMapObj {
  obj_filemap_ : option nat;
  obj_mapsize_ : Z;
  obj_fnum_ : Z;
  obj_lastSeenCumulated_ : Z;
  obj_fetch_ : FETCH_STATE
}.

(** [FileMap::FileMap(FileMap&&)], lines 32-42: the object that is built,
    and the source [fm] as the constructor leaves it. *)
Definition FileMap_move (fm : FileMapObj) : FileMapObj * FileMapObj :=
  (mkFileMapObj (obj_filemap_ fm) (obj_mapsize_ fm) (obj_fnum_ fm) 0
     (obj_fetch_ fm),
   mkFileMapObj None (obj_mapsize_ fm) (obj_fnum_ fm)
     (obj_lastSeenCumulated_ fm) (obj_fetch_ fm)).

(** [free(p)] on the arena of live blocks: releasing an address that is
    not a live block is undefined ([None]). *)
Definition arena_free (p : nat) (a : gmap nat (list memval))
    : option (gmap nat (list memval)) :=
  match a !! p with
  | Some _ => Some (delete p a)
  | None => None
  end.

(** [FileMap::~FileMap()], lines 46-52: the object with its pointer
    cleared, and the arena. *)
Definition FileMap_destroy (fm : FileMapObj) (a : gmap nat (list memval))
    : option (FileMapObj * gmap nat (list memval)) :=
  let cleared := mkFileMapObj None (obj_mapsize_ fm) (obj_fnum_ fm)
                   (obj_lastSeenCumulated_ fm) (obj_fetch_ fm) in
  match obj_filemap_ fm with
  | Some p => a' ← arena_free p a; Some (cleared, a')
  | None => Some (cleared, a)
  end.

(** ** The state of a call before its sweep *)

(** The state after lines 114-117 of [getRawBlock]: the clock advanced,
    the region at [l] stamped, and [current_] assigned. *)
Definition stamped (l : loc) (fm : FileMap) (size : Z)
    (fmpPtr : option FileMapContainer) (s : State) : State :=
  let clock' := wrap64 (lastSeenCumulative_ s + size) in
  let s2 := set_lastSeenCumulative clock'
              (set_heap (<[l := set_lastSeenCumulated clock' fm]> (heap s))
                 s) in
  match fmpPtr with
  | Some c => set_cells (<[current_ c := l]> (cells s2)) s2
  | None => s2
  end.

(** The regions of [s] are still there in [s'], with the buffer, the size
    and the file index they had. *)
Definition keeps_regions (s s' : State) : Prop :=
  ∀ l fm, heap s !! l = Some fm →
    ∃ fm', heap s' !! l = Some fm'
           ∧ filemap_ fm' = filemap_ fm
           ∧ mapsize_ fm' = mapsize_ fm
           ∧ fnum_ fm' = fnum_ fm.

(** ** Shape of the states an accessor goes through *)

(** No [shared_ptr] of the table or of the caller points outside the
    heap, and two slots of the table never hold the same region. *)
Record Wf (s : State) : Prop := mkWf {
  wf_table : ∀ k l, blkMaps_ s !! k = Some l → (l < length (heap s))%nat;
  wf_cells : ∀ c l, cells s !! c = Some l → (l < length (heap s))%nat;
  wf_inj : ∀ k k' l, blkMaps_ s !! k = Some l → blkMaps_ s !! k' = Some l →
           k = k'
}.

(** The pending slot is the sentinel or an index of the catalog. *)
Definition slot_ok (blkFiles_ : list BlkFile) (s : State) : Prop :=
  prefetchFileNum_ s = UINT32_MAX
  ∨ is_Some (vec_at blkFiles_ (prefetchFileNum_ s)).

(** A call whose file index is in the catalog. *)
Definition valid_call (blkFiles_ : list BlkFile) (c : Call) : Prop :=
  match c with
  | CallGetRawBlock fnum _ _ _ _ => is_Some (vec_at blkFiles_ fnum)
  | _ => True
  end.

Section Accounting.

Variable w : World.
Variable blkFiles_ : list BlkFile.
Variable prefetch_ : BFA_PREFETCH.
Variable threshold_ : Z.

(** The bytes a call serves: [size] for a [getRawBlock] that returns,
    nothing otherwise. *)
Definition bytes_of_call (c : Call) (s : State) : Z :=
  match c with
  | CallGetRawBlock fnum offset size fmpPtr try_lock =>
      match BFA_getRawBlock w blkFiles_ prefetch_ threshold_
              fnum offset size fmpPtr try_lock s with
      | Ok _ _ => size
      | _ => 0
      end
  | _ => 0
  end.

(** The bytes served along a history that starts in [s]. *)
Fixpoint bytes_served (cs : list Call) (s : State) : Z :=
  match cs with
  | [] => 0
  | c :: cs' =>
      match exec w blkFiles_ prefetch_ threshold_ c s with
      | Some s' => bytes_of_call c s + bytes_served cs' s'
      | None => 0
      end
  end.

End Accounting.

(** ** Concrete catalogs and worlds used to run the embedding *)

Module Examples.

Definition blk0 : BlkFile := mkBlkFile 0 "blk00000.dat" 4.
Definition blk1 : BlkFile := mkBlkFile 1 "blk00001.dat" 3.
Definition catalog : list BlkFile := [blk0; blk1].

Definition files (p : string) : option (list byte) :=
  if String.eqb p "blk00000.dat" then Some [x01; x02; x03; x04]
  else if String.eqb p "blk00001.dat" then Some [x0a; x0b; x0c]
  else None.

(** Every [read] moves all it is asked for. *)
Definition good_world : World := mkWorld files (λ _ count, count).
(** [read] stops after two bytes. *)
Definition short_world : World := mkWorld files (λ _ _, 2).
(** [read] fails. *)
Definition error_world : World := mkWorld files (λ _ _, -1).
(** [read] moves what there is, of a file cut to two bytes after the
    catalog recorded four. *)
Definition truncated_world : World :=
  mkWorld (λ p, if String.eqb p "blk00000.dat" then Some [x01; x02]
                else None)
          (λ _ count, count).
(** No file can be opened. *)
Definition empty_world : World := mkWorld (λ _, None) (λ _ count, count).

Definition region0 (mark : Z) (f : FETCH_STATE) : FileMap :=
  mkFileMap [Byte x01; Byte x02; Byte x03; Byte x04] 4 0 mark f.
Definition region1 (mark : Z) (f : FETCH_STATE) : FileMap :=
  mkFileMap [Byte x0a; Byte x0b; Byte x0c] 3 1 mark f.

(** File 0 resident, last used at clock 5, held by the table alone; the
    clock stands at [clock]. *)
Definition one_region (clock : Z) : State :=
  mkState [region0 5 FETCH_ACCESSED] ∅ {[ 0 := 0%nat ]} clock 0 UINT32_MAX.

(** Both files resident and touched, file 1 pending in the prefetch
    slot. *)
Definition both_resident : State :=
  mkState [region0 2 FETCH_ACCESSED; region1 7 FETCH_ACCESSED] ∅
          {[ 0 := 0%nat; 1 := 1%nat ]} 7 100 1.

(** File 0 read once, then file 1 until ten more bytes are served. *)
Definition boundary_history : list Call :=
  [CallGetRawBlock 0 0 2 None true;
   CallGetRawBlock 1 0 3 None true;
   CallGetRawBlock 1 0 3 None true;
   CallGetRawBlock 1 0 3 None true;
   CallGetRawBlock 1 0 1 None true].

(** A reader with a container: file 0 is read, its region is kept in
    cell 1, the prefetch thread brings file 1 in, file 1 is read with
    [prev_] on cell 1, and file 0 is dropped from the table. *)
Definition history : list Call :=
  [CallGetRawBlock 0 0 4 (Some (mkContainer 0 None)) true;
   CallerAssign 1 (Some 0%nat);
   PrefetchPass;
   CallGetRawBlock 1 0 3 (Some (mkContainer 0 (Some 1%nat))) true;
   CallDropFileMap 0].

Definition after_history : State :=
  default (BFA_new 10 UINT32_MAX)
    (run good_world catalog PREFETCH_FORWARD 10 history (BFA_new 10 UINT32_MAX)).

(** The region of file 0 that cell 1 still holds after [history]. *)
Definition held_region : FileMap :=
  default (region0 0 FETCH_FETCHED) (heap after_history !! 0%nat).

End Examples.

Module MoreExamples.

Import Examples.

(** An object that owns the block at address 7. *)
Definition obj : FileMapObj := mkFileMapObj (Some 7%nat) 4 0 9 FETCH_ACCESSED.
Definition arena : gmap nat (list memval) :=
  {[ 7%nat := [Byte x01; Byte x02; Byte x03; Byte x04] ]}.

Definition new_accessor : State := BFA_new 10 UINT32_MAX.

(** [getFileMap] for file 0 on a new accessor, forward mode. *)
Definition get0 (lk : bool) : loc * State :=
  match getFileMap good_world catalog PREFETCH_FORWARD 0 lk new_accessor with
  | Ok l s => (l, s)
  | _ => (0%nat, new_accessor)
  end.

(** [getRawBlock] of bytes 0 and 1 of file 0 on a new accessor. *)
Definition read0 (fmpPtr : option FileMapContainer)
    : BinaryDataRef * State :=
  match BFA_getRawBlock good_world catalog PREFETCH_FORWARD 10
          0 0 2 fmpPtr true new_accessor with
  | Ok bdr s => (bdr, s)
  | _ => ([], new_accessor)
  end.

(** [history] replayed on an accessor that has both files resident. *)
Definition after_both : State :=
  default both_resident
    (run good_world catalog PREFETCH_FORWARD 10 history both_resident).

(** One pass of the prefetch thread with file 1 pending. *)
Definition pass1 : State :=
  match prefetchThread_pass good_world catalog both_resident with
  | Ok _ s => s
  | _ => both_resident
  end.

(** Threshold 3: file 0 is read whole, which leaves file 1 pending, and
    the prefetch thread brings file 1 in. *)
Definition read_whole : list Call := [CallGetRawBlock 0 0 4 None true].
Definition after_read_whole : State :=
  default (BFA_new 100 UINT32_MAX)
    (run good_world catalog PREFETCH_FORWARD 3 read_whole
       (BFA_new 100 UINT32_MAX)).
Definition prefetched : State :=
  match prefetchThread_pass good_world catalog after_read_whole with
  | Ok _ s => s
  | _ => after_read_whole
  end.

(** [boundary_history] with prefetching off. *)
Definition after_boundary : State :=
  default (BFA_new 12 UINT32_MAX)
    (run good_world catalog PREFETCH_NONE 10 boundary_history
       (BFA_new 12 UINT32_MAX)).

End MoreExamples.

(** * Properties *)

(** ** Machine arithmetic *)

Lemma wrap64_small (z : Z) : 0 ≤ z < 2 ^ 64 → wrap64 z = z.
Proof. intros H. unfold wrap64. by apply Z.mod_small. Qed.

Lemma wrap32_small (z : Z) : 0 ≤ z < 2 ^ 32 → wrap32 z = z.
Proof. intros H. unfold wrap32. by apply Z.mod_small. Qed.

Lemma wrap32_underflow : wrap32 (0 - 1) = UINT32_MAX.
Proof. reflexivity. Qed.

Lemma vec_at_Some {A} (v : list A) (i : Z) (x : A) :
  vec_at v i = Some x ↔ 0 ≤ i ∧ v !! Z.to_nat i = Some x.
Proof.
  unfold vec_at. destruct (Z.ltb_spec i 0); split.
  - discriminate.
  - intros [? _]. lia.
  - auto.
  - by intros [_ ?].
Qed.

(** ** FileMap *)

Section FileMapFacts.

Variable w : World.

Lemma FileMap_new_open_failure (blk : BlkFile) :
  disk w (path blk) = None →
  FileMap_new w blk = inl "failed to open file"%string.
Proof. intros H. unfold FileMap_new. by rewrite H. Qed.

(** The constructor fails only when the file cannot be opened. *)
Lemma FileMap_new_inl (blk : BlkFile) (e : string) :
  FileMap_new w blk = inl e →
  disk w (path blk) = None ∧ e = "failed to open file"%string.
Proof.
  unfold FileMap_new. destruct (disk w (path blk)); [done|].
  intros [= <-]. done.
Qed.

(** When [read] moves everything it is asked for, the buffer is the
    first [filesize] bytes of the file. *)
Lemma FileMap_new_complete (blk : BlkFile) (content : list byte) :
  disk w (path blk) = Some content →
  0 ≤ filesize blk ≤ Z.of_nat (length content) →
  read_result w (path blk) (filesize blk) = filesize blk →
  FileMap_new w blk =
    inr (mkFileMap (Byte <$> take (Z.to_nat (filesize blk)) content)
                   (filesize blk) (fnum blk) 0 FETCH_FETCHED).
Proof.
  intros Hd Hsz Hrd. unfold FileMap_new, transferred.
  rewrite Hd, Hrd. do 2 f_equal.
  replace (Z.min (filesize blk)
             (Z.min (filesize blk) (Z.of_nat (length content))))
    with (filesize blk) by lia.
  rewrite drop_replicate, Nat.sub_diag. simpl. by rewrite app_nil_r.
Qed.

(** C8.  [FileMap::getRawBlock] with length [size], called while the
    usage clock reads [clock] (a 64-bit counter that [size] more bytes
    do not overflow): the clock becomes [clock + size], that value is
    the mark stored in the serving region, nothing else of the region
    changes, and the clock has not decreased. *)
Theorem FileMap_getRawBlock_clock (fm : FileMap) (offset size clock : Z) :
  0 ≤ clock → 0 ≤ size → clock + size < 2 ^ 64 →
  FileMap_getRawBlock fm offset size clock =
    (take (Z.to_nat size) (drop (Z.to_nat offset) (filemap_ fm)),
     set_lastSeenCumulated (clock + size) fm,
     clock + size)
  ∧ lastSeenCumulated_ (FileMap_getRawBlock fm offset size clock).1.2
    = (FileMap_getRawBlock fm offset size clock).2
  ∧ clock ≤ (FileMap_getRawBlock fm offset size clock).2.
Proof.
  intros Hc Hs Hov. unfold FileMap_getRawBlock. simpl.
  rewrite wrap64_small by lia. repeat split. lia.
Qed.

(** In general the counter is advanced modulo [2 ^ 64]. *)
Lemma FileMap_getRawBlock_wrap (fm : FileMap) (offset size clock : Z) :
  (FileMap_getRawBlock fm offset size clock).2 = wrap64 (clock + size)
  ∧ lastSeenCumulated_ (FileMap_getRawBlock fm offset size clock).1.2
    = wrap64 (clock + size).
Proof. done. Qed.

End FileMapFacts.

Lemma FileMap_getRawBlock_clock_witness :
  FileMap_getRawBlock (Examples.region0 5 FETCH_ACCESSED) 1 2 7 =
    ([Byte x02; Byte x03],
     set_lastSeenCumulated 9 (Examples.region0 5 FETCH_ACCESSED), 9).
Proof.
  pose proof (FileMap_getRawBlock_clock
                (Examples.region0 5 FETCH_ACCESSED) 1 2 7) as H.
  destruct H as [H _]; [lia | lia | lia |]. exact H.
Defined.

(** C5.  The constructor on a catalog entry of four bytes whose file
    opens: when the file holds only two bytes, when [read] stops after
    two bytes, and when [read] fails.  No exception in any of the three
    cases, and the buffer keeps indeterminate bytes where the file's
    bytes should be. *)
Theorem FileMap_new_unchecked_read :
  FileMap_new Examples.truncated_world Examples.blk0 =
    inr (mkFileMap [Byte x01; Byte x02; Undef; Undef] 4 0 0 FETCH_FETCHED)
  ∧ FileMap_new Examples.short_world Examples.blk0 =
    inr (mkFileMap [Byte x01; Byte x02; Undef; Undef] 4 0 0 FETCH_FETCHED)
  ∧ FileMap_new Examples.error_world Examples.blk0 =
    inr (mkFileMap [Undef; Undef; Undef; Undef] 4 0 0 FETCH_FETCHED).
Proof. repeat split; reflexivity. Qed.

(** ** getFileMap *)

Ltac unfold_M :=
  unfold bind, get, ret, modify, throw, undefined, deref, alloc in *.

Section GetFileMapFacts.

Variable w : World.
Variable blkFiles_ : list BlkFile.
Variable prefetch_ : BFA_PREFETCH.

Local Abbreviation getFileMap := (getFileMap w blkFiles_ prefetch_).
Local Abbreviation nextFnum_of := (nextFnum_of blkFiles_ prefetch_).
Local Abbreviation signalled := (signalled blkFiles_ prefetch_).

Lemma getFileMap_hit (s : State) (fnum : Z) (lk : bool) (l : loc)
    (fm : FileMap) :
  blkMaps_ s !! fnum = Some l →
  heap s !! l = Some fm →
  getFileMap fnum lk s = Ok l (touched l fm (signalled fm lk fnum s)).
Proof.
  intros Ht Hh. unfold getFileMap. unfold_M. simpl. rewrite Ht. simpl.
  rewrite Hh. unfold touched, signalled.
  destruct (negb (is_accessed (fetch_ fm)) && prefetching prefetch_);
    [destruct lk|]; reflexivity.
Qed.

Lemma getFileMap_miss (s : State) (fnum : Z) (lk : bool) (blk : BlkFile)
    (fm : FileMap) :
  blkMaps_ s !! fnum = None →
  vec_at blkFiles_ fnum = Some blk →
  FileMap_new w blk = inr fm →
  getFileMap fnum lk s =
    Ok (length (heap s))
       (touched (length (heap s)) fm
          (signalled fm lk fnum
             (set_blkMaps (<[fnum := length (heap s)]> (blkMaps_ s))
                (set_heap (heap s ++ [fm]) s)))).
Proof.
  intros Ht Hv Hn. unfold getFileMap. unfold_M. simpl.
  rewrite Ht, Hv, Hn. simpl. unfold map_insert. rewrite Ht.
  rewrite lookup_app_r by lia. rewrite Nat.sub_diag. simpl.
  unfold touched, signalled.
  destruct (negb (is_accessed (fetch_ fm)) && prefetching prefetch_);
    [destruct lk|]; reflexivity.
Qed.

Lemma getFileMap_load_throws (s : State) (fnum : Z) (lk : bool)
    (blk : BlkFile) (e : string) :
  blkMaps_ s !! fnum = None →
  vec_at blkFiles_ fnum = Some blk →
  FileMap_new w blk = inl e →
  getFileMap fnum lk s = Throw e s.
Proof.
  intros Ht Hv Hn. unfold getFileMap. unfold_M. simpl.
  by rewrite Ht, Hv, Hn.
Qed.

(** An exception of [getFileMap] can only come from the constructor,
    and leaves the state as the call found it. *)
Lemma getFileMap_Throw_inv (s s' : State) (fnum : Z) (lk : bool)
    (e : string) :
  getFileMap fnum lk s = Throw e s' →
  s' = s ∧ blkMaps_ s !! fnum = None ∧
  ∃ blk, vec_at blkFiles_ fnum = Some blk ∧ FileMap_new w blk = inl e.
Proof.
  unfold getFileMap. unfold_M. simpl.
  destruct (blkMaps_ s !! fnum) as [l|] eqn:Ht; simpl.
  - destruct (heap s !! l) as [fm|]; [|done].
    destruct (negb (is_accessed (fetch_ fm)) && prefetching prefetch_);
      [destruct lk|]; done.
  - destruct (vec_at blkFiles_ fnum) as [blk|] eqn:Hv; [|done].
    destruct (FileMap_new w blk) as [e'|fm] eqn:Hn.
    + intros [= <- <-]. eauto.
    + simpl. unfold map_insert. rewrite Ht. simpl.
      rewrite lookup_app_r by lia. rewrite Nat.sub_diag. simpl.
      destruct (negb (is_accessed (fetch_ fm)) && prefetching prefetch_);
        [destruct lk|]; done.
Qed.

Lemma getFileMap_first_touch (s s' : State) (fnum : Z) (lk : bool)
    (l : loc) :
  first_touch s fnum →
  getFileMap fnum lk s = Ok l s' →
  prefetchFileNum_ s' =
    if prefetching prefetch_ && lk then nextFnum_of fnum
    else prefetchFileNum_ s.
Proof.
  unfold first_touch. intros Hft.
  destruct (blkMaps_ s !! fnum) as [l0|] eqn:Ht.
  - destruct Hft as (fm & Hh & Hf).
    rewrite (getFileMap_hit _ _ _ _ _ Ht Hh). intros [= <- <-].
    unfold touched, signalled. rewrite Hf. simpl.
    destruct (prefetching prefetch_), lk; reflexivity.
  - destruct (vec_at blkFiles_ fnum) as [blk|] eqn:Hv.
    + destruct (FileMap_new w blk) as [e|fm] eqn:Hn.
      * by rewrite (getFileMap_load_throws _ _ _ _ _ Ht Hv Hn).
      * rewrite (getFileMap_miss _ _ _ _ _ Ht Hv Hn). intros [= <- <-].
        unfold touched, signalled.
        assert (fetch_ fm = FETCH_FETCHED) as ->.
        { unfold FileMap_new in Hn. destruct (disk w (path blk)); [|done].
          by injection Hn as <-. }
        simpl. destruct (prefetching prefetch_), lk; reflexivity.
    + unfold getFileMap. unfold_M. simpl. by rewrite Ht, Hv.
Qed.

Lemma getFileMap_first_touch_defined (s : State) (fnum : Z) (lk : bool) :
  first_touch s fnum → loadable w blkFiles_ s fnum →
  ∃ l s', getFileMap fnum lk s = Ok l s'.
Proof.
  unfold first_touch, loadable. intros Hft Hld.
  destruct (blkMaps_ s !! fnum) as [l0|] eqn:Ht.
  - destruct Hft as (fm & Hh & _).
    rewrite (getFileMap_hit _ _ _ _ _ Ht Hh). eauto.
  - destruct Hld as [[? [=]]|(blk & fm & Hv & Hn)].
    rewrite (getFileMap_miss _ _ _ _ _ Ht Hv Hn). eauto.
Qed.

End GetFileMapFacts.

(** ** getRawBlock, one call *)

Section GetRawBlockFacts.

Variable w : World.
Variable blkFiles_ : list BlkFile.
Variable prefetch_ : BFA_PREFETCH.
Variable threshold_ : Z.

Local Abbreviation getFileMap := (getFileMap w blkFiles_ prefetch_).
Local Abbreviation BFA_getRawBlock :=
  (BFA_getRawBlock w blkFiles_ prefetch_ threshold_).
Local Abbreviation served := (served threshold_).

Lemma serve_eq (l : loc) (fm : FileMap) (offset size : Z)
    (fmpPtr : option FileMapContainer) (s : State) :
  heap s !! l = Some fm →
  (let* fm := deref l in
   let* s := get in
   let '(bdr, fm', clock') :=
     FileMap_getRawBlock fm offset size (lastSeenCumulative_ s) in
   run* modify (λ s, set_lastSeenCumulative clock'
                       (set_heap (<[l := fm']> (heap s)) s)) in
   run* match fmpPtr with
        | Some c =>
            modify (λ s, set_cells (<[current_ c := l]> (cells s)) s)
        | None => ret tt
        end in
   let* s := get in
   run* (if nextThreshold_ s <=? lastSeenCumulative_ s
         then modify (sweep threshold_) else ret tt) in
   ret bdr) s
  = Ok (view fm offset size) (served l fm size fmpPtr s).
Proof.
  intros Hh. unfold_M. rewrite Hh. unfold served, view. simpl.
  destruct fmpPtr as [c|]; simpl;
    match goal with |- context [if ?b then _ else _] => destruct b end;
    reflexivity.
Qed.

Lemma BFA_getRawBlock_fast (s : State) (fnum offset size : Z)
    (fmpPtr : option FileMapContainer) (lk : bool) (l : loc)
    (fm : FileMap) :
  from_container fnum fmpPtr s = Some l →
  heap s !! l = Some fm →
  BFA_getRawBlock fnum offset size fmpPtr lk s =
    Ok (view fm offset size) (served l fm size fmpPtr s).
Proof.
  intros Hc Hh. unfold BFA_getRawBlock.
  unfold bind at 1. unfold get at 1. rewrite Hc.
  unfold bind at 1. unfold ret at 1.
  by apply serve_eq.
Qed.

Lemma BFA_getRawBlock_slow (s s1 : State) (fnum offset size : Z)
    (fmpPtr : option FileMapContainer) (lk : bool) (l : loc)
    (fm : FileMap) :
  from_container fnum fmpPtr s = None →
  getFileMap fnum lk s = Ok l s1 →
  heap s1 !! l = Some fm →
  BFA_getRawBlock fnum offset size fmpPtr lk s =
    Ok (view fm offset size) (served l fm size fmpPtr s1).
Proof.
  intros Hc Hg Hh. unfold BFA_getRawBlock.
  unfold bind at 1. unfold get at 1. rewrite Hc.
  unfold bind at 1. rewrite Hg.
  by apply serve_eq.
Qed.

Lemma BFA_getRawBlock_slow_throw (s s1 : State) (fnum offset size : Z)
    (fmpPtr : option FileMapContainer) (lk : bool) (e : string) :
  from_container fnum fmpPtr s = None →
  getFileMap fnum lk s = Throw e s1 →
  BFA_getRawBlock fnum offset size fmpPtr lk s = Throw e s1.
Proof.
  intros Hc Hg. unfold BFA_getRawBlock.
  unfold bind at 1. unfold get at 1. rewrite Hc.
  unfold bind at 1. by rewrite Hg.
Qed.

(** C7.  [getFileMap] for an index that is not resident, when the
    constructor of its region fails with [e]: the exception [e] reaches
    the caller of [getFileMap], and the caller of [getRawBlock] whenever
    the call goes through [getFileMap]; the state at the throw is the
    state before the call, so the table has no entry for the index and
    every other entry is as it was. *)
Theorem load_failure_propagates (s : State) (fnum offset size : Z)
    (fmpPtr : option FileMapContainer) (lk : bool) (blk : BlkFile)
    (e : string) :
  blkMaps_ s !! fnum = None →
  vec_at blkFiles_ fnum = Some blk →
  FileMap_new w blk = inl e →
  getFileMap fnum lk s = Throw e s
  ∧ (from_container fnum fmpPtr s = None →
     BFA_getRawBlock fnum offset size fmpPtr lk s = Throw e s).
Proof.
  intros Ht Hv Hn.
  pose proof (getFileMap_load_throws w blkFiles_ prefetch_
                s fnum lk blk e Ht Hv Hn) as Hg.
  split; [done|]. intros Hc. by apply BFA_getRawBlock_slow_throw.
Qed.

(** Whatever exception [getRawBlock] raises, the state is untouched. *)
Lemma BFA_getRawBlock_Throw_inv (s s' : State) (fnum offset size : Z)
    (fmpPtr : option FileMapContainer) (lk : bool) (e : string) :
  BFA_getRawBlock fnum offset size fmpPtr lk s = Throw e s' → s' = s.
Proof.
  destruct (from_container fnum fmpPtr s) as [l|] eqn:Hc.
  - assert (is_Some (heap s !! l)) as [fm Hh].
    { unfold from_container in Hc.
      destruct fmpPtr as [c|]; [|done]. simpl in Hc.
      destruct (prev_ c) as [p|]; [|done]. simpl in Hc.
      destruct (cells s !! p) as [l'|]; [|done]. simpl in Hc.
      destruct (heap s !! l') as [fm|] eqn:Hh; [|done]. simpl in Hc.
      destruct (fnum_ fm =? fnum); [|done]. injection Hc as <-. eauto. }
    by rewrite (BFA_getRawBlock_fast _ _ _ _ _ _ _ _ Hc Hh).
  - destruct (getFileMap fnum lk s) as [l s1|e1 s1|] eqn:Hg.
    + destruct (heap s1 !! l) as [fm|] eqn:Hh.
      * by rewrite (BFA_getRawBlock_slow _ _ _ _ _ _ _ _ _ Hc Hg Hh).
      * unfold BFA_getRawBlock. unfold bind at 1. unfold get at 1.
        rewrite Hc. unfold bind at 1. rewrite Hg.
        unfold bind at 1. unfold deref. by rewrite Hh.
    + rewrite (BFA_getRawBlock_slow_throw _ _ _ _ _ _ _ _ Hc Hg).
      intros [= <- <-].
      by apply getFileMap_Throw_inv in Hg as [-> _].
    + unfold BFA_getRawBlock. unfold bind at 1. unfold get at 1.
      rewrite Hc. unfold bind at 1. by rewrite Hg.
Qed.

End GetRawBlockFacts.

Lemma load_failure_propagates_witness :
  getFileMap Examples.empty_world Examples.catalog PREFETCH_FORWARD
    1 true (BFA_new 10 UINT32_MAX)
  = Throw "failed to open file" (BFA_new 10 UINT32_MAX)
  ∧ BFA_getRawBlock Examples.empty_world Examples.catalog PREFETCH_FORWARD 10
      1 0 2 (Some (mkContainer 0%nat None)) true (BFA_new 10 UINT32_MAX)
    = Throw "failed to open file" (BFA_new 10 UINT32_MAX).
Proof.
  destruct (load_failure_propagates Examples.empty_world Examples.catalog
              PREFETCH_FORWARD 10 (BFA_new 10 UINT32_MAX) 1 0 2
              (Some (mkContainer 0%nat None)) true Examples.blk1
              "failed to open file") as [H1 H2];
    [reflexivity | reflexivity | reflexivity |].
  split; [exact H1 | apply H2; reflexivity].
Defined.

(** ** Reference counts *)

Section Holders.

Context `{Countable K}.
Implicit Types (m : gmap K loc) (k : K) (l : loc).

Lemma holders_delete_other m k l0 l :
  m !! k = Some l0 → l0 ≠ l → holders (delete k m) l = holders m l.
Proof.
  intros Hk Hne. unfold holders. rewrite map_filter_delete.
  apply map_size_delete_None, map_lookup_filter_None. right.
  intros x Hx. simpl. congruence.
Qed.

Lemma holders_pos m k l : m !! k = Some l → (1 ≤ holders m l)%nat.
Proof.
  intros Hk. unfold holders.
  assert (size (filter (λ kv : K * loc, kv.2 = l) m) ≠ 0%nat); [|lia].
  apply map_size_ne_0_lookup. exists k. exists l.
  by apply map_lookup_filter_Some.
Qed.

Lemma holders_two m k k' l :
  m !! k = Some l → m !! k' = Some l → k ≠ k' → (2 ≤ holders m l)%nat.
Proof.
  intros Hk Hk' Hne.
  assert (holders (delete k m) l = pred (holders m l)) as Hd.
  { unfold holders. rewrite map_filter_delete.
    apply map_size_delete_Some. exists l.
    by apply map_lookup_filter_Some. }
  assert (1 ≤ holders (delete k m) l)%nat.
  { apply (holders_pos _ k'). by rewrite lookup_delete_ne. }
  lia.
Qed.

End Holders.

Lemma use_count_two (s : State) (k : Z) (c : nat) (l : loc) :
  blkMaps_ s !! k = Some l → cells s !! c = Some l →
  (2 ≤ use_count s l)%nat.
Proof.
  intros Hk Hc. unfold use_count.
  pose proof (holders_pos _ _ _ Hk). pose proof (holders_pos _ _ _ Hc). lia.
Qed.

(** ** The eviction sweep *)

Section SweepFacts.

Variable threshold_ : Z.

Local Abbreviation stale := (stale threshold_).
Local Abbreviation evictable := (evictable threshold_).
Local Abbreviation sweep_entry := (sweep_entry threshold_).
Local Abbreviation sweep := (sweep threshold_).
Local Abbreviation swept := (swept threshold_).

Lemma sweep_entry_eq (s : State) (kv : Z * loc) :
  sweep_entry s kv =
    if evictable s kv.2
    then set_blkMaps (delete kv.1 (blkMaps_ s)) s else s.
Proof.
  unfold sweep_entry, evictable.
  destruct (heap s !! kv.2) as [fm|]; [|done].
  destruct (stale s fm); [|done].
  by destruct (use_count s kv.2 =? 1)%nat.
Qed.

(** Erasing an evictable entry does not change the verdict on any other
    entry of the table. *)
Lemma evictable_after_erase (s : State) (k0 k : Z) (l0 l : loc) :
  blkMaps_ s !! k0 = Some l0 → evictable s l0 = true →
  blkMaps_ s !! k = Some l → k ≠ k0 →
  evictable (set_blkMaps (delete k0 (blkMaps_ s)) s) l = evictable s l.
Proof.
  intros Hk0 He Hk Hne. unfold evictable in *. simpl.
  destruct (heap s !! l0) as [fm0|]; [|done].
  apply andb_true_iff in He as [_ Hu%Nat.eqb_eq].
  assert (l0 ≠ l) as Hl.
  { intros ->. pose proof (holders_two _ _ _ _ Hk Hk0 Hne).
    unfold use_count in Hu. lia. }
  destruct (heap s !! l) as [fm|]; [|done].
  unfold stale, use_count. simpl.
  by rewrite (holders_delete_other _ _ _ _ Hk0 Hl).
Qed.

Lemma sweep_loop_spec (es : list (Z * loc)) :
  ∀ s : State,
    NoDup es.*1 →
    (∀ k l, (k, l) ∈ es → blkMaps_ s !! k = Some l) →
    heap (foldl sweep_entry s es) = heap s
    ∧ cells (foldl sweep_entry s es) = cells s
    ∧ lastSeenCumulative_ (foldl sweep_entry s es) = lastSeenCumulative_ s
    ∧ nextThreshold_ (foldl sweep_entry s es) = nextThreshold_ s
    ∧ prefetchFileNum_ (foldl sweep_entry s es) = prefetchFileNum_ s
    ∧ ∀ k, blkMaps_ (foldl sweep_entry s es) !! k = swept s es k.
Proof.
  induction es as [|[k0 l0] es IH]; intros s Hnd Hin.
  - simpl. repeat split. intros k. unfold swept. simpl.
    by destruct (blkMaps_ s !! k).
  - simpl in Hnd. apply NoDup_cons in Hnd as [Hk0 Hnd].
    assert (blkMaps_ s !! k0 = Some l0) as Ht0
      by (apply Hin; left).
    simpl foldl. rewrite sweep_entry_eq. simpl fst. simpl snd.
    destruct (evictable s l0) eqn:He.
    + destruct (IH (set_blkMaps (delete k0 (blkMaps_ s)) s) Hnd)
        as (Hh & Hc & Hcl & Hnt & Hpf & Hlk).
      { intros k l Hkl. simpl. rewrite lookup_delete_ne.
        - apply Hin. by right.
        - intros <-. apply Hk0. apply list_elem_of_fmap.
          by exists (k0, l). }
      repeat split; try done.
      intros k. rewrite Hlk. unfold swept. simpl.
      destruct (decide (k = k0)) as [->|Hne].
      * rewrite lookup_delete_eq, Ht0.
        rewrite bool_decide_eq_true_2 by left. by rewrite He.
      * rewrite lookup_delete_ne by done.
        destruct (blkMaps_ s !! k) as [l|] eqn:Hk; [|done].
        rewrite (evictable_after_erase _ _ _ _ _ Ht0 He Hk Hne).
        destruct (decide (k ∈ es.*1)) as [Hm|Hm].
        -- rewrite !bool_decide_eq_true_2; [done| by right | done].
        -- rewrite !bool_decide_eq_false_2; [done| | done].
           intros [?|?]%elem_of_cons; done.
    + destruct (IH s Hnd) as (Hh & Hc & Hcl & Hnt & Hpf & Hlk).
      { intros k l Hkl. apply Hin. by right. }
      repeat split; try done.
      intros k. rewrite Hlk. unfold swept. simpl.
      destruct (blkMaps_ s !! k) as [l|] eqn:Hk; [|done].
      destruct (decide (k = k0)) as [->|Hne].
      * assert (l = l0) as -> by congruence. rewrite He.
        by rewrite !andb_false_r.
      * destruct (decide (k ∈ es.*1)) as [Hm|Hm].
        -- rewrite !bool_decide_eq_true_2; [done| by right | done].
        -- rewrite !bool_decide_eq_false_2; [done| | done].
           intros [?|?]%elem_of_cons; done.
Qed.

Lemma entries_NoDup (m : gmap Z loc) : NoDup (entries m).*1.
Proof.
  unfold entries. rewrite merge_sort_Permutation.
  apply NoDup_fst_map_to_list.
Qed.

Lemma elem_of_entries (m : gmap Z loc) (k : Z) (l : loc) :
  (k, l) ∈ entries m ↔ m !! k = Some l.
Proof.
  unfold entries. rewrite merge_sort_Permutation.
  apply elem_of_map_to_list.
Qed.

(** The sweep as a whole: an entry goes exactly when it is evictable in
    the state the sweep starts from; only the table and the trigger
    change. *)
Lemma sweep_spec (s : State) :
  heap (sweep s) = heap s
  ∧ cells (sweep s) = cells s
  ∧ lastSeenCumulative_ (sweep s) = lastSeenCumulative_ s
  ∧ nextThreshold_ (sweep s) = wrap64 (lastSeenCumulative_ s + threshold_)
  ∧ prefetchFileNum_ (sweep s) = prefetchFileNum_ s
  ∧ ∀ k, blkMaps_ (sweep s) !! k =
         match blkMaps_ s !! k with
         | Some l => if evictable s l then None else Some l
         | None => None
         end.
Proof.
  destruct (sweep_loop_spec (entries (blkMaps_ s)) s)
    as (Hh & Hc & Hcl & Hnt & Hpf & Hlk).
  { apply entries_NoDup. }
  { intros k l. apply elem_of_entries. }
  unfold sweep. simpl. rewrite Hcl. repeat split; try done.
  intros k. rewrite Hlk. unfold swept.
  destruct (blkMaps_ s !! k) as [l|] eqn:Hk; [|done].
  rewrite bool_decide_eq_true_2; [done|].
  apply list_elem_of_fmap. exists (k, l). split; [done|].
  by apply elem_of_entries.
Qed.

End SweepFacts.

Section EvictionFacts.

Variable w : World.
Variable blkFiles_ : list BlkFile.
Variable prefetch_ : BFA_PREFETCH.
Variable threshold_ : Z.

Local Abbreviation sweep := (sweep threshold_).
Local Abbreviation evictable := (evictable threshold_).
Local Abbreviation served := (served threshold_).
Local Abbreviation getFileMap := (getFileMap w blkFiles_ prefetch_).
Local Abbreviation BFA_getRawBlock :=
  (BFA_getRawBlock w blkFiles_ prefetch_ threshold_).

Lemma sweep_lookup (s : State) (k : Z) (l : loc) :
  blkMaps_ s !! k = Some l →
  blkMaps_ (sweep s) !! k = if evictable s l then None else Some l.
Proof.
  intros Hk. destruct (sweep_spec threshold_ s) as (_ & _ & _ & _ & _ & H).
  by rewrite H, Hk.
Qed.

Lemma sweep_lookup_Some (s : State) (k : Z) (l : loc) :
  blkMaps_ (sweep s) !! k = Some l →
  blkMaps_ s !! k = Some l ∧ evictable s l = false.
Proof.
  destruct (sweep_spec threshold_ s) as (_ & _ & _ & _ & _ & H).
  rewrite H. destruct (blkMaps_ s !! k) as [l'|]; [|done].
  destruct (evictable s l') eqn:He; [done|]. by intros [= <-].
Qed.

Lemma evictable_true (s : State) (l : loc) (fm : FileMap) :
  heap s !! l = Some fm →
  0 ≤ lastSeenCumulated_ fm + threshold_ < 2 ^ 64 →
  evictable s l = true ↔
    lastSeenCumulated_ fm + threshold_ < lastSeenCumulative_ s
    ∧ use_count s l = 1%nat.
Proof.
  intros Hh Hov. unfold evictable, stale. rewrite Hh.
  rewrite wrap64_small by done.
  rewrite andb_true_iff, Z.ltb_lt, Nat.eqb_eq. done.
Qed.

(** References to a region that survives a sweep are all still there. *)
Lemma use_count_sweep (s : State) (l : loc) :
  evictable s l = false → use_count (sweep s) l = use_count s l.
Proof.
  intros He. destruct (sweep_spec threshold_ s) as (_ & Hc & _ & _ & _ & H).
  unfold use_count. rewrite Hc. f_equal. unfold holders. f_equal.
  apply map_eq. intros k.
  destruct (filter (λ kv : Z * loc, kv.2 = l) (blkMaps_ s) !! k)
    as [l'|] eqn:Hf.
  - apply map_lookup_filter_Some in Hf as [Hk Hl]. simpl in Hl. subst l'.
    apply map_lookup_filter_Some. split; [|done].
    by rewrite H, Hk, He.
  - apply map_lookup_filter_None. apply map_lookup_filter_None in Hf.
    destruct Hf as [Hf|Hf].
    + left. by rewrite H, Hf.
    + right. intros x Hx. apply Hf.
      by apply sweep_lookup_Some in Hx as [? _].
Qed.

(** C2.  The sweep of lines 122-141 on a table entry [k] that holds the
    region [fm] at [l].
    - If some [shared_ptr] cell outside the table (the [current_] of a
      container, or what a [prev_] points to) holds [l], the entry is
      still there after the sweep.
    - When [mark + threshold_] fits in 64 bits: the entry is removed if
      and only if [mark + threshold_ < clock] and [use_count] is 1; and
      if it remains, then after the sweep the region is unchanged and
      [clock <= mark + threshold_] or [use_count] is above 1. *)
Theorem sweep_evicts_iff (s : State) (k : Z) (l : loc) (fm : FileMap) :
  blkMaps_ s !! k = Some l →
  heap s !! l = Some fm →
  (∀ c : nat, cells s !! c = Some l → blkMaps_ (sweep s) !! k = Some l)
  ∧ (0 ≤ lastSeenCumulated_ fm + threshold_ < 2 ^ 64 →
     (blkMaps_ (sweep s) !! k = None ↔
        lastSeenCumulated_ fm + threshold_ < lastSeenCumulative_ s
        ∧ use_count s l = 1%nat)
     ∧ (blkMaps_ (sweep s) !! k = Some l →
        heap (sweep s) !! l = Some fm
        ∧ (lastSeenCumulative_ (sweep s)
             ≤ lastSeenCumulated_ fm + threshold_
           ∨ (1 < use_count (sweep s) l)%nat))).
Proof.
  intros Hk Hh. split.
  - intros c Hc. rewrite (sweep_lookup _ _ _ Hk).
    destruct (evictable s l) eqn:He; [|done].
    pose proof (use_count_two _ _ _ _ Hk Hc) as H2.
    unfold evictable in He. rewrite Hh in He.
    apply andb_true_iff in He as [_ Hu%Nat.eqb_eq]. lia.
  - intros Hov. rewrite (sweep_lookup _ _ _ Hk).
    pose proof (evictable_true s l fm Hh Hov) as Hev.
    destruct (sweep_spec threshold_ s) as (Hhp & _ & Hcl & _ & _ & _).
    destruct (evictable s l) eqn:He.
    + split; [|done]. split; [intros _; by apply Hev|done].
    + split.
      * split; [done|]. intros Hc. apply Hev in Hc. done.
      * intros _. rewrite Hhp, Hcl, (use_count_sweep _ _ He).
        split; [done|].
        destruct (Z.lt_ge_cases
                    (lastSeenCumulated_ fm + threshold_)
                    (lastSeenCumulative_ s)) as [Hlt|Hge]; [|by left].
        right. pose proof (holders_pos _ _ _ Hk) as Hp.
        assert (use_count s l ≠ 1%nat) as Hne.
        { intros Hu. assert (false = true) by (by apply Hev). done. }
        unfold use_count in *. lia.
Qed.

(** C4, as the code has it.  The sweep on an entry whose region is held
    by the table alone, [mark + threshold_] fitting in 64 bits: the
    region survives when the clock is at most [threshold_] past its
    mark, exactly [threshold_] included, and it is evicted when the
    clock is more than [threshold_] past the mark, from
    [threshold_ + 1] on. *)
Theorem sweep_threshold_boundary (s : State) (k : Z) (l : loc)
    (fm : FileMap) :
  blkMaps_ s !! k = Some l →
  heap s !! l = Some fm →
  use_count s l = 1%nat →
  0 ≤ lastSeenCumulated_ fm + threshold_ < 2 ^ 64 →
  (lastSeenCumulative_ s ≤ lastSeenCumulated_ fm + threshold_ →
     blkMaps_ (sweep s) !! k = Some l)
  ∧ (lastSeenCumulated_ fm + threshold_ + 1 ≤ lastSeenCumulative_ s →
     blkMaps_ (sweep s) !! k = None).
Proof.
  intros Hk Hh Hu Hov. rewrite (sweep_lookup _ _ _ Hk).
  pose proof (evictable_true s l fm Hh Hov) as Hev.
  split; intros Hc.
  - destruct (evictable s l); [|done].
    assert (lastSeenCumulated_ fm + threshold_ < lastSeenCumulative_ s)
      by (by apply Hev). lia.
  - assert (evictable s l = true) as -> by (apply Hev; split; [lia|done]).
    done.
Qed.

End EvictionFacts.

Lemma sweep_evicts_iff_witness :
  blkMaps_ (sweep 10 (Examples.one_region 16)) !! 0 = None
  ↔ 5 + 10 < 16 ∧ use_count (Examples.one_region 16) 0%nat = 1%nat.
Proof.
  destruct (sweep_evicts_iff 10 (Examples.one_region 16) 0 0%nat
              (Examples.region0 5 FETCH_ACCESSED)) as [_ H];
    [reflexivity | reflexivity |].
  destruct H as [H _]; [simpl; lia|]. exact H.
Defined.

Lemma sweep_threshold_boundary_witness :
  blkMaps_ (sweep 10 (Examples.one_region 15)) !! 0 = Some 0%nat
  ∧ blkMaps_ (sweep 10 (Examples.one_region 16)) !! 0 = None.
Proof.
  split.
  - destruct (sweep_threshold_boundary 10 (Examples.one_region 15) 0 0%nat
                (Examples.region0 5 FETCH_ACCESSED)) as [H _];
      [reflexivity | reflexivity | reflexivity | simpl; lia |].
    apply H. simpl. lia.
  - destruct (sweep_threshold_boundary 10 (Examples.one_region 16) 0 0%nat
                (Examples.region0 5 FETCH_ACCESSED)) as [_ H];
      [reflexivity | reflexivity | reflexivity | simpl; lia |].
    apply H. simpl. lia.
Defined.

(** C4, as the claim has it, fails.  Threshold 10, first trigger 12.
    File 0 is read once (mark 2), then file 1 is read until the clock is
    12 = 2 + 10, exactly the threshold past the mark of file 0, which
    nothing but the table holds.  The sweep runs at that call (the
    trigger moves to 22) and file 0 is still resident. *)
Lemma exactly_threshold_survives :
  (s ← run Examples.good_world Examples.catalog PREFETCH_NONE 10
         Examples.boundary_history (BFA_new 12 UINT32_MAX);
   Some (lastSeenCumulated_ <$> heap s !! 0%nat,
         lastSeenCumulative_ s,
         use_count s 0%nat,
         nextThreshold_ s,
         blkMaps_ s !! 0))
  = Some (Some 2, 2 + 10, 1%nat, 22, Some 0%nat).
Proof. vm_compute. reflexivity. Qed.

(** ** The prefetch index and the prefetch thread *)

Section PrefetchFacts.

Variable w : World.
Variable blkFiles_ : list BlkFile.

Lemma nextFnum_forward (fnum : Z) :
  0 ≤ fnum < Z.of_nat (length blkFiles_) →
  Z.of_nat (length blkFiles_) ≤ UINT32_MAX →
  nextFnum_of blkFiles_ PREFETCH_FORWARD fnum =
    if fnum + 1 =? Z.of_nat (length blkFiles_)
    then UINT32_MAX else fnum + 1.
Proof.
  unfold nextFnum_of, UINT32_MAX. intros Hf Hl.
  rewrite wrap32_small by lia. rewrite wrap64_small by lia.
  destruct (Z.eqb_spec (fnum + 1) (Z.of_nat (length blkFiles_)));
    destruct (Z.ltb_spec (Z.of_nat (length blkFiles_) - 1) (fnum + 1));
    lia || done.
Qed.

Lemma nextFnum_backward (fnum : Z) :
  nextFnum_of blkFiles_ PREFETCH_BACKWARD fnum = wrap32 (fnum - 1).
Proof. reflexivity. Qed.

(** C9.  [getFileMap] on a first touch of a valid index that is resident
    or can be loaded, the prefetch mutex being free, every catalog index
    lying below the sentinel [UINT32_MAX]: the call returns, and the
    pending slot has received, in forward mode, [fnum + 1], or the
    sentinel when [fnum] is the last index; in backward mode, [fnum - 1]
    computed in 32 bits without any test on [fnum], which is [fnum - 1]
    from index 1 on. *)
Theorem first_touch_prefetch_index (prefetch_ : BFA_PREFETCH)
    (s : State) (fnum : Z) :
  0 ≤ fnum < Z.of_nat (length blkFiles_) →
  Z.of_nat (length blkFiles_) ≤ UINT32_MAX →
  first_touch s fnum →
  loadable w blkFiles_ s fnum →
  ∃ (l : loc) (s' : State),
    getFileMap w blkFiles_ prefetch_ fnum true s = Ok l s'
    ∧ match prefetch_ with
      | PREFETCH_FORWARD =>
          prefetchFileNum_ s' =
            if fnum + 1 =? Z.of_nat (length blkFiles_)
            then UINT32_MAX else fnum + 1
      | PREFETCH_BACKWARD =>
          prefetchFileNum_ s' = wrap32 (fnum - 1)
          ∧ (1 ≤ fnum → prefetchFileNum_ s' = fnum - 1)
      | PREFETCH_NONE => prefetchFileNum_ s' = prefetchFileNum_ s
      end.
Proof.
  intros Hf Hl Hft Hld.
  destruct (getFileMap_first_touch_defined w blkFiles_ prefetch_
              s fnum true Hft Hld) as (l & s' & Hg).
  exists l, s'. split; [done|].
  pose proof (getFileMap_first_touch w blkFiles_ prefetch_
                s s' fnum true l Hft Hg) as Hp.
  destruct prefetch_; unfold prefetching in Hp; cbn [andb] in Hp.
  - done.
  - by rewrite Hp, nextFnum_forward.
  - rewrite Hp, nextFnum_backward. split; [done|].
    intros H1. unfold UINT32_MAX in Hl. apply wrap32_small. lia.
Qed.

Lemma prefetchThread_pass_idle (s : State) :
  prefetchFileNum_ s = UINT32_MAX →
  prefetchThread_pass w blkFiles_ s = Ok tt s.
Proof.
  intros Hp. unfold prefetchThread_pass. unfold_M. by rewrite Hp.
Qed.

(** C10.  Backward mode, first touch of file 0, resident or loadable,
    the prefetch mutex free: the index computed is [0 - 1] in 32 bits,
    which is [UINT32_MAX], the sentinel; [getFileMap] returns with that
    value in the pending slot, and the next pass of the prefetch thread
    loads nothing, reads no catalog entry and leaves the state as it
    is. *)
Theorem backward_underflow_is_sentinel (s : State) :
  first_touch s 0 →
  loadable w blkFiles_ s 0 →
  nextFnum_of blkFiles_ PREFETCH_BACKWARD 0 = UINT32_MAX
  ∧ ∃ (l : loc) (s' : State),
      getFileMap w blkFiles_ PREFETCH_BACKWARD 0 true s = Ok l s'
      ∧ prefetchFileNum_ s' = UINT32_MAX
      ∧ prefetchThread_pass w blkFiles_ s' = Ok tt s'.
Proof.
  intros Hft Hld. split; [reflexivity|].
  destruct (getFileMap_first_touch_defined w blkFiles_ PREFETCH_BACKWARD
              s 0 true Hft Hld) as (l & s' & Hg).
  exists l, s'. split; [done|].
  pose proof (getFileMap_first_touch w blkFiles_ PREFETCH_BACKWARD
                s s' 0 true l Hft Hg) as Hp.
  unfold prefetching in Hp. cbn [andb] in Hp.
  rewrite nextFnum_backward in Hp.
  rewrite wrap32_underflow in Hp.
  split; [done|]. by apply prefetchThread_pass_idle.
Qed.

(** What a pass of the prefetch thread does with a pending index: the
    slot of the table is assigned a region built anew, whatever it
    held. *)
Lemma prefetchThread_pass_loads (s : State) (blk : BlkFile)
    (fm : FileMap) :
  prefetchFileNum_ s ≠ UINT32_MAX →
  vec_at blkFiles_ (prefetchFileNum_ s) = Some blk →
  FileMap_new w blk = inr fm →
  prefetchThread_pass w blkFiles_ s =
    Ok tt (set_blkMaps
             (<[prefetchFileNum_ s := length (heap s)]> (blkMaps_ s))
             (set_heap (heap s ++ [fm]) s)).
Proof.
  intros Hp Hv Hn. unfold prefetchThread_pass. unfold_M.
  destruct (Z.eqb_spec (prefetchFileNum_ s) UINT32_MAX); [done|].
  by rewrite Hv, Hn.
Qed.

End PrefetchFacts.

Lemma first_touch_prefetch_index_witness :
  (∃ (l : loc) (s' : State),
     getFileMap Examples.good_world Examples.catalog PREFETCH_FORWARD
       1 true (BFA_new 10 UINT32_MAX) = Ok l s'
     ∧ prefetchFileNum_ s' = UINT32_MAX)
  ∧ (∃ (l : loc) (s' : State),
     getFileMap Examples.good_world Examples.catalog PREFETCH_BACKWARD
       1 true (BFA_new 10 UINT32_MAX) = Ok l s'
     ∧ prefetchFileNum_ s' = 0).
Proof.
  split.
  - destruct (first_touch_prefetch_index Examples.good_world
                Examples.catalog PREFETCH_FORWARD (BFA_new 10 UINT32_MAX) 1)
      as (l & s' & Hg & Hp);
      [simpl; lia | unfold UINT32_MAX; simpl; lia | exact I
      | right; eexists; eexists; split; reflexivity |].
    exists l, s'. split; [exact Hg | exact Hp].
  - destruct (first_touch_prefetch_index Examples.good_world
                Examples.catalog PREFETCH_BACKWARD (BFA_new 10 UINT32_MAX) 1)
      as (l & s' & Hg & _ & Hp);
      [simpl; lia | unfold UINT32_MAX; simpl; lia | exact I
      | right; eexists; eexists; split; reflexivity |].
    exists l, s'. split; [exact Hg | apply Hp; lia].
Defined.

Lemma backward_underflow_is_sentinel_witness :
  ∃ (l : loc) (s' : State),
    getFileMap Examples.good_world Examples.catalog PREFETCH_BACKWARD
      0 true (BFA_new 10 UINT32_MAX) = Ok l s'
    ∧ prefetchFileNum_ s' = UINT32_MAX
    ∧ prefetchThread_pass Examples.good_world Examples.catalog s' = Ok tt s'.
Proof.
  destruct (backward_underflow_is_sentinel Examples.good_world
              Examples.catalog (BFA_new 10 UINT32_MAX))
    as (_ & H);
    [exact I | right; eexists; eexists; split; reflexivity |].
  exact H.
Defined.

(** C6.  A pass of the prefetch thread when the pending index, 1, is
    already resident: region [1] of the heap, mark 7, tag
    [FETCH_ACCESSED].  The file is loaded once more, the slot of the
    table is assigned the new region, at location 2 with mark 0 and tag
    [FETCH_FETCHED], and the entry that was there is gone from the
    table. *)
Theorem prefetch_replaces_resident_entry :
  blkMaps_ Examples.both_resident !! 1 = Some 1%nat
  ∧ heap Examples.both_resident !! 1%nat
    = Some (Examples.region1 7 FETCH_ACCESSED)
  ∧ prefetchThread_pass Examples.good_world Examples.catalog
      Examples.both_resident
    = Ok tt (mkState
               [Examples.region0 2 FETCH_ACCESSED;
                Examples.region1 7 FETCH_ACCESSED;
                Examples.region1 0 FETCH_FETCHED]
               ∅ {[ 0 := 0%nat; 1 := 2%nat ]} 7 100 1).
Proof. repeat split. Qed.

(** ** The invariant of the accessor *)

Lemma view_of_copy (content : list byte) (fs offset size : Z) :
  0 ≤ offset → 0 ≤ size → offset + size ≤ fs →
  take (Z.to_nat size)
    (drop (Z.to_nat offset) (Byte <$> take (Z.to_nat fs) content))
  = Byte <$> take (Z.to_nat size) (drop (Z.to_nat offset) content).
Proof.
  intros Ho Hs Hfs. rewrite <- fmap_drop, <- fmap_take. f_equal.
  rewrite !take_drop_commute, take_take. do 2 f_equal. lia.
Qed.

Section InvariantFacts.

Variable w : World.
Variable blkFiles_ : list BlkFile.
Variable prefetch_ : BFA_PREFETCH.
Variable threshold_ : Z.

Hypothesis Hcat : catalog_ok w blkFiles_.

Local Abbreviation Inv := (Inv w blkFiles_).
Local Abbreviation region_ok := (region_ok w blkFiles_).
Local Abbreviation getFileMap := (getFileMap w blkFiles_ prefetch_).
Local Abbreviation BFA_getRawBlock :=
  (BFA_getRawBlock w blkFiles_ prefetch_ threshold_).
Local Abbreviation served := (served threshold_).
Local Abbreviation signalled := (signalled blkFiles_ prefetch_).

Lemma Inv_new (nt pf : Z) : Inv (BFA_new nt pf).
Proof. split; simpl; intros ??; by rewrite ?lookup_nil, ?lookup_empty. Qed.

(** Only the heap, the cells and the table matter, and the table may
    shrink. *)
Lemma Inv_fields (s s' : State) :
  Inv s →
  heap s' = heap s → cells s' = cells s →
  (∀ k l, blkMaps_ s' !! k = Some l → blkMaps_ s !! k = Some l) →
  Inv s'.
Proof.
  intros [Hh Ht Hc] Eh Ec Hsub. split.
  - intros l fm. rewrite Eh. apply Hh.
  - intros k l Hk. rewrite Eh. apply Ht. auto.
  - intros c l. rewrite Eh, Ec. apply Hc.
Qed.

(** Writing the mark or the tag of a region. *)
Lemma Inv_update (s : State) (l : loc) (fm fm' : FileMap) :
  Inv s → heap s !! l = Some fm →
  filemap_ fm' = filemap_ fm → fnum_ fm' = fnum_ fm →
  Inv (set_heap (<[l := fm']> (heap s)) s).
Proof.
  intros [Hh Ht Hc] Hl Eb Ef. split; simpl.
  - intros l' x [(-> & <- & _)|[_ Hx]]%list_lookup_insert_Some; [|eauto].
    destruct (Hh _ _ Hl) as (blk & content & ? & ? & ?).
    exists blk, content. rewrite Eb, Ef. done.
  - intros k l' Hk. destruct (Ht _ _ Hk) as (x & Hx & Hf).
    destruct (decide (l = l')) as [->|Hne].
    + exists fm'. rewrite list_lookup_insert_eq
        by (by apply lookup_lt_is_Some; eauto).
      split; [done|]. congruence.
    + exists x. by rewrite list_lookup_insert_ne.
  - intros c l' Hcl. apply list_lookup_insert_is_Some. eauto.
Qed.

(** A region built by the constructor, put in the slot of its index. *)
Lemma Inv_load (s : State) (k : Z) (fm : FileMap) :
  Inv s → region_ok fm → fnum_ fm = k →
  Inv (set_blkMaps (<[k := length (heap s)]> (blkMaps_ s))
         (set_heap (heap s ++ [fm]) s)).
Proof.
  intros [Hh Ht Hc] Hr Hf. split; simpl.
  - intros l x [[_ Hx]|[_ <-]]%lookup_snoc_Some; eauto.
  - intros k' l [[<- <-]|[_ Hk]]%lookup_insert_Some.
    + exists fm. split; [|done]. apply lookup_snoc_Some. by right.
    + destruct (Ht _ _ Hk) as (x & Hx & Hfx). exists x.
      split; [|done]. by apply lookup_app_l_Some.
  - intros c l Hcl. destruct (Hc _ _ Hcl) as [x Hx]. exists x.
    by apply lookup_app_l_Some.
Qed.

Lemma Inv_set_cell (s : State) (c : nat) (l : loc) :
  Inv s → is_Some (heap s !! l) →
  Inv (set_cells (<[c := l]> (cells s)) s).
Proof.
  intros [Hh Ht Hc] Hl. split; simpl; [done|done|].
  intros c' l' [[<- <-]|[_ Hk]]%lookup_insert_Some; eauto.
Qed.

Lemma Inv_reset_cell (s : State) (c : nat) :
  Inv s → Inv (set_cells (delete c (cells s)) s).
Proof.
  intros [Hh Ht Hc]. split; simpl; [done|done|].
  intros c' l' [_ Hk]%lookup_delete_Some. eauto.
Qed.

Lemma Inv_signalled (s : State) (fm : FileMap) (lk : bool) (fnum : Z) :
  Inv s → Inv (signalled fm lk fnum s).
Proof.
  intros HI. unfold signalled.
  destruct (negb (is_accessed (fetch_ fm)) && prefetching prefetch_);
    [destruct lk|]; try done.
  by apply (Inv_fields s).
Qed.

Lemma signalled_heap (s : State) (fm : FileMap) (lk : bool) (fnum : Z) :
  heap (signalled fm lk fnum s) = heap s
  ∧ blkMaps_ (signalled fm lk fnum s) = blkMaps_ s
  ∧ cells (signalled fm lk fnum s) = cells s.
Proof.
  unfold signalled.
  destruct (negb (is_accessed (fetch_ fm)) && prefetching prefetch_);
    [destruct lk|]; done.
Qed.

(** The constructor on a catalog entry. *)
Lemma FileMap_new_catalog (fnum : Z) (blk : BlkFile) :
  vec_at blkFiles_ fnum = Some blk →
  ∃ content,
    disk w (path blk) = Some content
    ∧ 0 ≤ filesize blk ≤ Z.of_nat (length content)
    ∧ FileMap_new w blk =
        inr (mkFileMap (Byte <$> take (Z.to_nat (filesize blk)) content)
               (filesize blk) fnum 0 FETCH_FETCHED).
Proof.
  intros [H0 Hi]%vec_at_Some.
  destruct (Hcat _ _ Hi) as (Hf & content & Hd & Hsz & Hrd).
  exists content. split; [done|]. split; [done|].
  rewrite (FileMap_new_complete w blk content Hd Hsz Hrd).
  do 2 f_equal. lia.
Qed.

Lemma region_ok_new (fnum : Z) (blk : BlkFile) (fm : FileMap) :
  vec_at blkFiles_ fnum = Some blk →
  FileMap_new w blk = inr fm →
  region_ok fm ∧ fnum_ fm = fnum.
Proof.
  intros Hv Hn.
  destruct (FileMap_new_catalog _ _ Hv) as (content & Hd & Hsz & Hn').
  rewrite Hn' in Hn. injection Hn as <-. split; [|done].
  exists blk, content. done.
Qed.

Lemma getFileMap_Inv (s s1 : State) (fnum : Z) (lk : bool) (l : loc) :
  Inv s →
  getFileMap fnum lk s = Ok l s1 →
  Inv s1
  ∧ (∃ fm, heap s1 !! l = Some fm ∧ fnum_ fm = fnum)
  ∧ (∀ k l', blkMaps_ s !! k = Some l' → blkMaps_ s1 !! k = Some l').
Proof.
  intros HI.
  destruct (blkMaps_ s !! fnum) as [l0|] eqn:Ht.
  - destruct (inv_table _ _ _ HI _ _ Ht) as (fm & Hh & Hf).
    rewrite (getFileMap_hit _ _ _ _ _ _ _ _ Ht Hh). intros [= <- <-].
    destruct (signalled_heap s fm lk fnum) as (Eh & Et & Ec).
    split; [|split].
    + apply (Inv_update _ _ fm); [by apply Inv_signalled| |done|done].
      by rewrite Eh.
    + exists (set_fetch FETCH_ACCESSED fm). split; [|done].
      unfold touched. simpl. rewrite Eh.
      apply list_lookup_insert_eq, lookup_lt_is_Some. eauto.
    + intros k l' Hk. unfold touched. simpl. by rewrite Et.
  - destruct (vec_at blkFiles_ fnum) as [blk|] eqn:Hv.
    + destruct (FileMap_new w blk) as [e|fm] eqn:Hn.
      * by rewrite (getFileMap_load_throws _ _ _ _ _ _ _ _ Ht Hv Hn).
      * rewrite (getFileMap_miss _ _ _ _ _ _ _ _ Ht Hv Hn).
        intros [= <- <-].
        destruct (region_ok_new _ _ _ Hv Hn) as [Hr Hf].
        pose proof (Inv_load s fnum fm HI Hr Hf) as HI1.
        set (s0 := set_blkMaps _ _) in *.
        destruct (signalled_heap s0 fm lk fnum) as (Eh & Et & Ec).
        assert (heap s0 !! length (heap s) = Some fm) as Hl.
        { subst s0. simpl. apply lookup_snoc_Some. by right. }
        split; [|split].
        -- apply (Inv_update _ _ fm); [by apply Inv_signalled| |done|done].
           by rewrite Eh.
        -- exists (set_fetch FETCH_ACCESSED fm). split; [|done].
           unfold touched. simpl. rewrite Eh.
           apply list_lookup_insert_eq, lookup_lt_is_Some. eauto.
        -- intros k l' Hk. unfold touched. simpl. rewrite Et.
           subst s0. simpl. rewrite lookup_insert_ne; [done|].
           intros <-. congruence.
    + unfold getFileMap. unfold_M. simpl. by rewrite Ht, Hv.
Qed.

Lemma getFileMap_defined (s : State) (fnum : Z) (lk : bool)
    (blk : BlkFile) :
  Inv s → vec_at blkFiles_ fnum = Some blk →
  ∃ l s1, getFileMap fnum lk s = Ok l s1.
Proof.
  intros HI Hv.
  destruct (blkMaps_ s !! fnum) as [l0|] eqn:Ht.
  - destruct (inv_table _ _ _ HI _ _ Ht) as (fm & Hh & Hf).
    rewrite (getFileMap_hit _ _ _ _ _ _ _ _ Ht Hh). eauto.
  - destruct (FileMap_new_catalog _ _ Hv) as (content & _ & _ & Hn).
    rewrite (getFileMap_miss _ _ _ _ _ _ _ _ Ht Hv Hn). eauto.
Qed.

Lemma sweep_Inv (s : State) : Inv s → Inv (sweep threshold_ s).
Proof.
  intros HI.
  destruct (sweep_spec threshold_ s) as (Hh & Hc & _ & _ & _ & Hlk).
  apply (Inv_fields s); [done|done|done|].
  intros k l Hk. rewrite Hlk in Hk.
  destruct (blkMaps_ s !! k) as [l'|]; [|done].
  by destruct (evictable threshold_ s l').
Qed.

Lemma served_Inv (s : State) (l : loc) (fm : FileMap) (size : Z)
    (fmpPtr : option FileMapContainer) :
  Inv s → heap s !! l = Some fm →
  Inv (served l fm size fmpPtr s).
Proof.
  intros HI Hl. unfold served.
  set (clock' := wrap64 _).
  assert (Inv (set_lastSeenCumulative clock'
                 (set_heap
                    (<[l := set_lastSeenCumulated clock' fm]> (heap s)) s)))
    as HI2.
  { apply (Inv_fields (set_heap
              (<[l := set_lastSeenCumulated clock' fm]> (heap s)) s));
      [|done|done|done].
    by apply (Inv_update _ _ fm). }
  set (s2 := set_lastSeenCumulative _ _) in *.
  assert (Inv (match fmpPtr with
               | Some c => set_cells (<[current_ c := l]> (cells s2)) s2
               | None => s2
               end)) as HI3.
  { destruct fmpPtr as [c|]; [|done]. apply Inv_set_cell; [done|].
    subst s2. simpl. apply list_lookup_insert_is_Some. eauto. }
  set (s3 := match fmpPtr with Some _ => _ | None => _ end) in *.
  destruct (nextThreshold_ s3 <=? lastSeenCumulative_ s3); [|done].
  by apply sweep_Inv.
Qed.

Lemma from_container_Some (s : State) (fnum : Z)
    (fmpPtr : option FileMapContainer) (l : loc) :
  from_container fnum fmpPtr s = Some l ↔
  ∃ c p fm, fmpPtr = Some c ∧ prev_ c = Some p ∧ cells s !! p = Some l
            ∧ heap s !! l = Some fm ∧ fnum_ fm = fnum.
Proof.
  unfold from_container. split.
  - destruct fmpPtr as [c|]; [|done]. simpl.
    destruct (prev_ c) as [p|] eqn:Hp; [|done]. simpl.
    destruct (cells s !! p) as [l'|] eqn:Hc; [|done]. simpl.
    destruct (heap s !! l') as [fm|] eqn:Hh; [|done]. simpl.
    destruct (Z.eqb_spec (fnum_ fm) fnum); [|done]. intros [= <-].
    exists c, p, fm. done.
  - intros (c & p & fm & -> & Hp & Hc & Hh & Hf). simpl.
    rewrite Hp. simpl. rewrite Hc. simpl. rewrite Hh. simpl.
    by rewrite Hf, Z.eqb_refl.
Qed.

Lemma region_bytes_eq (fm fm' : FileMap) :
  region_ok fm → region_ok fm' → fnum_ fm = fnum_ fm' →
  filemap_ fm = filemap_ fm'.
Proof.
  intros (blk & content & Hv & Hd & Hb) (blk' & content' & Hv' & Hd' & Hb')
         Hf.
  rewrite Hf in Hv. assert (blk' = blk) as -> by congruence.
  assert (content' = content) as -> by congruence. congruence.
Qed.

Lemma region_view (fm : FileMap) (fnum offset size : Z) (blk : BlkFile)
    (content : list byte) :
  region_ok fm → fnum_ fm = fnum →
  vec_at blkFiles_ fnum = Some blk →
  disk w (path blk) = Some content →
  0 ≤ offset → 0 ≤ size → offset + size ≤ filesize blk →
  view fm offset size =
    Byte <$> take (Z.to_nat size) (drop (Z.to_nat offset) content).
Proof.
  intros (blk' & content' & Hv' & Hd' & Hb) Hf Hv Hd Ho Hs Hfs.
  rewrite Hf in Hv'. assert (blk' = blk) as -> by congruence.
  assert (content' = content) as -> by congruence.
  unfold view. rewrite Hb. by apply view_of_copy.
Qed.

Lemma BFA_getRawBlock_Inv (s s' : State) (fnum offset size : Z)
    (fmpPtr : option FileMapContainer) (lk : bool) (bdr : BinaryDataRef) :
  Inv s →
  BFA_getRawBlock fnum offset size fmpPtr lk s = Ok bdr s' →
  Inv s'.
Proof.
  intros HI.
  destruct (from_container fnum fmpPtr s) as [l|] eqn:Hc.
  - pose proof Hc as (c & p & fm & _ & _ & _ & Hh & _)%from_container_Some.
    rewrite (BFA_getRawBlock_fast _ _ _ _ _ _ _ _ _ _ _ _ Hc Hh).
    intros [= _ <-]. by apply served_Inv.
  - destruct (getFileMap fnum lk s) as [l s1|e s1|] eqn:Hg.
    + destruct (getFileMap_Inv _ _ _ _ _ HI Hg) as (HI1 & (fm & Hh & _) & _).
      rewrite (BFA_getRawBlock_slow _ _ _ _ _ _ _ _ _ _ _ _ _ Hc Hg Hh).
      intros [= _ <-]. by apply served_Inv.
    + by rewrite (BFA_getRawBlock_slow_throw _ _ _ _ _ _ _ _ _ _ _ _ Hc Hg).
    + unfold BFA_getRawBlock. unfold bind at 1.
      unfold get at 1. rewrite Hc. unfold bind at 1. by rewrite Hg.
Qed.

Lemma prefetchThread_pass_Inv (s s' : State) :
  Inv s → prefetchThread_pass w blkFiles_ s = Ok tt s' → Inv s'.
Proof.
  intros HI. unfold prefetchThread_pass. unfold_M.
  destruct (prefetchFileNum_ s =? UINT32_MAX); [by intros [= <-]|].
  destruct (vec_at blkFiles_ (prefetchFileNum_ s)) as [blk|] eqn:Hv;
    [|done].
  destruct (FileMap_new w blk) as [e|fm] eqn:Hn; [done|].
  intros [= <-]. destruct (region_ok_new _ _ _ Hv Hn) as [Hr Hf].
  by apply Inv_load.
Qed.

Lemma exec_Inv (c : Call) (s s' : State) :
  Inv s → exec w blkFiles_ prefetch_ threshold_ c s = Some s' → Inv s'.
Proof.
  intros HI. destruct c as [fnum offset size fmpPtr lk|fnum| |dst src];
    simpl.
  - destruct (BFA_getRawBlock fnum offset size fmpPtr lk s)
      as [bdr s1|e s1|] eqn:Hg; [| |done]; intros [= <-].
    + by eapply BFA_getRawBlock_Inv.
    + by apply BFA_getRawBlock_Throw_inv in Hg as ->.
  - intros [= <-]. apply (Inv_fields s); [done|done|done|].
    simpl. intros k l [_ ?]%lookup_delete_Some. done.
  - destruct prefetch_; [by intros [= <-]| |];
      (destruct (prefetchThread_pass w blkFiles_ s) as [[] s1|e s1|] eqn:Hp;
       [|done|done]; intros [= <-]; by eapply prefetchThread_pass_Inv).
  - intros [= <-]. unfold caller_assign.
    destruct (src ≫= λ c, cells s !! c) as [l|] eqn:Hs.
    + apply Inv_set_cell; [done|].
      destruct src as [c|]; [|done]. simpl in Hs.
      by apply (inv_cells _ _ _ HI c).
    + by apply Inv_reset_cell.
Qed.

Lemma run_Inv (cs : list Call) :
  ∀ s s', Inv s →
          run w blkFiles_ prefetch_ threshold_ cs s = Some s' → Inv s'.
Proof.
  induction cs as [|c cs IH]; intros s s' HI; simpl.
  - by intros [= <-].
  - destruct (exec w blkFiles_ prefetch_ threshold_ c s) as [s1|] eqn:He;
      [|done].
    apply IH. by eapply exec_Inv.
Qed.

(** One read of a valid range, in a state that satisfies the
    invariant. *)
Lemma BFA_getRawBlock_bytes (s : State) (fnum offset size : Z)
    (fmpPtr : option FileMapContainer) (lk : bool) (blk : BlkFile)
    (content : list byte) :
  Inv s →
  vec_at blkFiles_ fnum = Some blk →
  disk w (path blk) = Some content →
  0 ≤ offset → 0 ≤ size → offset + size ≤ filesize blk →
  ∃ s', BFA_getRawBlock fnum offset size fmpPtr lk s =
          Ok (Byte <$> take (Z.to_nat size) (drop (Z.to_nat offset) content))
             s'.
Proof.
  intros HI Hv Hd Ho Hs Hfs.
  destruct (from_container fnum fmpPtr s) as [l|] eqn:Hc.
  - pose proof Hc as (c & p & fm & _ & _ & _ & Hh & Hf)%from_container_Some.
    rewrite (BFA_getRawBlock_fast _ _ _ _ _ _ _ _ _ _ _ _ Hc Hh).
    rewrite (region_view fm fnum offset size blk content); eauto.
    by apply (inv_heap _ _ _ HI l).
  - destruct (getFileMap_defined s fnum lk blk HI Hv) as (l & s1 & Hg).
    destruct (getFileMap_Inv _ _ _ _ _ HI Hg) as (HI1 & (fm & Hh & Hf) & _).
    rewrite (BFA_getRawBlock_slow _ _ _ _ _ _ _ _ _ _ _ _ _ Hc Hg Hh).
    rewrite (region_view fm fnum offset size blk content); eauto.
    by apply (inv_heap _ _ _ HI1 l).
Qed.

(** C1.  Let the catalog describe the disk ([catalog_ok]: every entry
    carries its own index, its file opens and holds at least [filesize]
    bytes, and the [read] of the constructor moves them all).  After any
    history of calls on a new accessor (reads with or without a
    container, forced drops, passes of the prefetch thread, the caller's
    own pointer assignments), a [getRawBlock] for a catalog index [fnum]
    and a range [offset, offset + size) inside the catalog size of that
    file returns exactly the bytes of that range of the file. *)
Theorem reads_return_file_bytes (nt pf : Z) (history : list Call) (s : State)
    (fnum offset size : Z) (fmpPtr : option FileMapContainer) (lk : bool)
    (blk : BlkFile) (content : list byte) :
  run w blkFiles_ prefetch_ threshold_ history (BFA_new nt pf) = Some s →
  vec_at blkFiles_ fnum = Some blk →
  disk w (path blk) = Some content →
  0 ≤ offset → 0 ≤ size → offset + size ≤ filesize blk →
  ∃ s', BFA_getRawBlock fnum offset size fmpPtr lk s =
          Ok (Byte <$> take (Z.to_nat size) (drop (Z.to_nat offset) content))
             s'.
Proof.
  intros Hrun. apply BFA_getRawBlock_bytes.
  eapply run_Inv; [|exact Hrun]. apply Inv_new.
Qed.

(** C3.  In any state reached by a history of calls on a new accessor,
    the catalog describing the disk ([catalog_ok]), for a catalog index
    [fnum] and a range [offset, offset + size) inside the catalog size
    of that file: when the container's [prev_] points to a region whose
    [fnum_] is [fnum], the call serves from that region without going
    through [getFileMap], and the view it returns is the one the same
    call returns when [prev_] is null, or when no container is passed,
    and the region comes from [getFileMap]; that view has [size] bytes,
    all of them inside the buffer. *)
Theorem fast_path_equals_slow_path (nt pf : Z) (history : list Call)
    (s : State) (fnum offset size : Z) (c : FileMapContainer) (p : nat)
    (l : loc) (fm : FileMap) (lk : bool) (blk : BlkFile) :
  run w blkFiles_ prefetch_ threshold_ history (BFA_new nt pf) = Some s →
  prev_ c = Some p →
  cells s !! p = Some l →
  heap s !! l = Some fm →
  fnum_ fm = fnum →
  vec_at blkFiles_ fnum = Some blk →
  0 ≤ offset → 0 ≤ size → offset + size ≤ filesize blk →
  from_container fnum (Some c) s = Some l
  ∧ from_container fnum (Some (mkContainer (current_ c) None)) s = None
  ∧ ∃ (bdr : BinaryDataRef) (s1 s2 s3 : State),
      BFA_getRawBlock fnum offset size (Some c) lk s = Ok bdr s1
      ∧ BFA_getRawBlock fnum offset size
          (Some (mkContainer (current_ c) None)) lk s = Ok bdr s2
      ∧ BFA_getRawBlock fnum offset size None lk s = Ok bdr s3
      ∧ length bdr = Z.to_nat size.
Proof.
  intros Hrun Hp Hc Hh Hf Hv Ho Hs Hfs.
  assert (Inv s) as HI by (eapply run_Inv; [|exact Hrun]; apply Inv_new).
  assert (from_container fnum (Some c) s = Some l) as Hfast.
  { apply from_container_Some. exists c, p, fm. done. }
  split; [done|]. split; [done|].
  pose proof (inv_heap _ _ _ HI _ _ Hh) as Hr.
  destruct (FileMap_new_catalog _ _ Hv) as (content & Hd & Hsz & _).
  destruct (getFileMap_defined s fnum lk blk HI Hv) as (l2 & s1 & Hg).
  destruct (getFileMap_Inv _ _ _ _ _ HI Hg) as (HI1 & (fm2 & Hh2 & Hf2) & _).
  pose proof (region_view fm fnum offset size blk content
                Hr Hf Hv Hd Ho Hs Hfs) as Hview.
  pose proof (region_view fm2 fnum offset size blk content
                (inv_heap _ _ _ HI1 _ _ Hh2) Hf2 Hv Hd Ho Hs Hfs) as Hview2.
  exists (view fm offset size),
         (served l fm size (Some c) s),
         (served l2 fm2 size (Some (mkContainer (current_ c) None)) s1),
         (served l2 fm2 size None s1).
  split; [by apply BFA_getRawBlock_fast|].
  split; [|split].
  - rewrite Hview, <- Hview2. by apply BFA_getRawBlock_slow.
  - rewrite Hview, <- Hview2.
    by rewrite (BFA_getRawBlock_slow w blkFiles_ prefetch_ threshold_
                  s s1 fnum offset size None lk l2 fm2).
  - rewrite Hview, length_fmap, length_take, length_drop. lia.
Qed.

End InvariantFacts.

Lemma good_world_catalog_ok :
  catalog_ok Examples.good_world Examples.catalog.
Proof.
  intros i blk Hi.
  destruct i as [|[|i]]; simpl in Hi; try done; injection Hi as <-;
    (split; [reflexivity|]);
    eexists; (split; [reflexivity|]); (split; [simpl; lia | reflexivity]).
Qed.

Lemma reads_return_file_bytes_witness :
  ∃ s' : State,
    BFA_getRawBlock Examples.good_world Examples.catalog PREFETCH_FORWARD 10
      0 1 2 (Some (mkContainer 0 (Some 1%nat))) true Examples.after_history
    = Ok [Byte x02; Byte x03] s'.
Proof.
  apply (reads_return_file_bytes Examples.good_world Examples.catalog
           PREFETCH_FORWARD 10 good_world_catalog_ok 10 UINT32_MAX
           Examples.history
           Examples.after_history 0 1 2 (Some (mkContainer 0 (Some 1%nat)))
           true Examples.blk0 [x01; x02; x03; x04]);
    [vm_compute; reflexivity | reflexivity | reflexivity
    | lia | lia | simpl; lia].
Defined.

Lemma fast_path_equals_slow_path_witness :
  ∃ (bdr : BinaryDataRef) (s1 s2 s3 : State),
    BFA_getRawBlock Examples.good_world Examples.catalog PREFETCH_FORWARD 10
      0 1 2 (Some (mkContainer 0 (Some 1%nat))) true Examples.after_history
    = Ok bdr s1
    ∧ BFA_getRawBlock Examples.good_world Examples.catalog PREFETCH_FORWARD 10
        0 1 2 (Some (mkContainer 0 None)) true Examples.after_history
      = Ok bdr s2
    ∧ BFA_getRawBlock Examples.good_world Examples.catalog PREFETCH_FORWARD 10
        0 1 2 None true Examples.after_history
      = Ok bdr s3
    ∧ length bdr = 2%nat.
Proof.
  destruct (fast_path_equals_slow_path Examples.good_world Examples.catalog
              PREFETCH_FORWARD 10 good_world_catalog_ok 10 UINT32_MAX
              Examples.history
              Examples.after_history 0 1 2 (mkContainer 0 (Some 1%nat))
              1%nat 0%nat Examples.held_region true Examples.blk0)
    as (_ & _ & H);
    [vm_compute; reflexivity | reflexivity | vm_compute; reflexivity
    | vm_compute; reflexivity | vm_compute; reflexivity
    | reflexivity | lia | lia | simpl; lia |].
  exact H.
Defined.

(** ** A whole call: the clock and the regions that are held *)

Section CallFacts.

Variable w : World.
Variable blkFiles_ : list BlkFile.
Variable prefetch_ : BFA_PREFETCH.
Variable threshold_ : Z.

Local Abbreviation getFileMap := (getFileMap w blkFiles_ prefetch_).
Local Abbreviation BFA_getRawBlock :=
  (BFA_getRawBlock w blkFiles_ prefetch_ threshold_).
Local Abbreviation served := (served threshold_).
Local Abbreviation signalled := (signalled blkFiles_ prefetch_).

Lemma signalled_frame (s : State) (fm : FileMap) (lk : bool) (fnum : Z) :
  lastSeenCumulative_ (signalled fm lk fnum s) = lastSeenCumulative_ s
  ∧ cells (signalled fm lk fnum s) = cells s
  ∧ blkMaps_ (signalled fm lk fnum s) = blkMaps_ s.
Proof.
  unfold signalled.
  destruct (negb (is_accessed (fetch_ fm)) && prefetching prefetch_);
    [destruct lk|]; done.
Qed.

(** [getFileMap] leaves the clock and the cells alone and removes nothing
    from the table. *)
Lemma getFileMap_frame (s s1 : State) (fnum : Z) (lk : bool) (l : loc) :
  getFileMap fnum lk s = Ok l s1 →
  lastSeenCumulative_ s1 = lastSeenCumulative_ s
  ∧ cells s1 = cells s
  ∧ ∀ k l', blkMaps_ s !! k = Some l' → blkMaps_ s1 !! k = Some l'.
Proof.
  destruct (blkMaps_ s !! fnum) as [l0|] eqn:Ht.
  - destruct (heap s !! l0) as [fm|] eqn:Hh.
    + rewrite (getFileMap_hit _ _ _ _ _ _ _ _ Ht Hh). intros [= <- <-].
      destruct (signalled_frame s fm lk fnum) as (Ec & Ece & Et).
      unfold touched. simpl. rewrite Ec, Ece, Et. done.
    + unfold getFileMap. unfold_M. simpl. rewrite Ht. simpl. by rewrite Hh.
  - destruct (vec_at blkFiles_ fnum) as [blk|] eqn:Hv.
    + destruct (FileMap_new w blk) as [e|fm] eqn:Hn.
      * by rewrite (getFileMap_load_throws _ _ _ _ _ _ _ _ Ht Hv Hn).
      * rewrite (getFileMap_miss _ _ _ _ _ _ _ _ Ht Hv Hn). intros [= <- <-].
        set (s0 := set_blkMaps _ _).
        destruct (signalled_frame s0 fm lk fnum) as (Ec & Ece & Et).
        unfold touched. simpl. rewrite Ec, Ece, Et. subst s0. simpl.
        repeat split. intros k l' Hk. rewrite lookup_insert_ne; [done|].
        intros <-. congruence.
    + unfold getFileMap. unfold_M. simpl. by rewrite Ht, Hv.
Qed.

Lemma served_clock (s : State) (l : loc) (fm : FileMap) (size : Z)
    (fmpPtr : option FileMapContainer) :
  lastSeenCumulative_ (served l fm size fmpPtr s)
  = wrap64 (lastSeenCumulative_ s + size).
Proof.
  unfold served.
  set (s3 := match fmpPtr with Some _ => _ | None => _ end).
  assert (lastSeenCumulative_ s3 = wrap64 (lastSeenCumulative_ s + size))
    as <- by (subst s3; by destruct fmpPtr).
  destruct (nextThreshold_ s3 <=? lastSeenCumulative_ s3); [|done].
  by destruct (sweep_spec threshold_ s3) as (_ & _ & -> & _).
Qed.

(** A region that a cell holds when the sweep of the call runs keeps its
    slot in the table. *)
Lemma served_keeps_held (s : State) (l0 : loc) (fm : FileMap) (size : Z)
    (fmpPtr : option FileMapContainer) (k : Z) (l : loc) (c : nat) :
  blkMaps_ s !! k = Some l →
  cells (served l0 fm size fmpPtr s) !! c = Some l →
  blkMaps_ (served l0 fm size fmpPtr s) !! k = Some l.
Proof.
  unfold served.
  set (s3 := match fmpPtr with Some _ => _ | None => _ end).
  assert (blkMaps_ s3 = blkMaps_ s) as Ht by (subst s3; by destruct fmpPtr).
  intros Hk. rewrite <- Ht in Hk.
  destruct (nextThreshold_ s3 <=? lastSeenCumulative_ s3); [|done].
  destruct (sweep_spec threshold_ s3) as (_ & -> & _ & _ & _ & Hlk).
  intros Hc. rewrite Hlk, Hk.
  destruct (evictable threshold_ s3 l) eqn:He; [|done].
  pose proof (use_count_two _ _ _ _ Hk Hc) as H2.
  unfold evictable in He. destruct (heap s3 !! l); [|done].
  apply andb_true_iff in He as [_ Hu%Nat.eqb_eq]. lia.
Qed.

(** Every [getRawBlock] that returns has advanced the clock by [size],
    modulo [2 ^ 64]; and no entry whose region some [shared_ptr] outside
    the table holds at the return has been evicted by the call. *)
Lemma BFA_getRawBlock_effect (s s' : State) (fnum offset size : Z)
    (fmpPtr : option FileMapContainer) (lk : bool) (bdr : BinaryDataRef) :
  BFA_getRawBlock fnum offset size fmpPtr lk s = Ok bdr s' →
  lastSeenCumulative_ s' = wrap64 (lastSeenCumulative_ s + size)
  ∧ ∀ k l c, blkMaps_ s !! k = Some l → cells s' !! c = Some l →
             blkMaps_ s' !! k = Some l.
Proof.
  destruct (from_container fnum fmpPtr s) as [l0|] eqn:Hc.
  - pose proof Hc as (c & p & fm & _ & _ & _ & Hh & _)%from_container_Some.
    rewrite (BFA_getRawBlock_fast _ _ _ _ _ _ _ _ _ _ _ _ Hc Hh).
    intros [= _ <-]. split; [apply served_clock|].
    intros k l c'. apply served_keeps_held.
  - destruct (getFileMap fnum lk s) as [l0 s1|e s1|] eqn:Hg.
    + destruct (getFileMap_frame _ _ _ _ _ Hg) as (Ec & _ & Hmono).
      destruct (heap s1 !! l0) as [fm|] eqn:Hh.
      * rewrite (BFA_getRawBlock_slow _ _ _ _ _ _ _ _ _ _ _ _ _ Hc Hg Hh).
        intros [= _ <-]. split; [by rewrite served_clock, Ec|].
        intros k l c' Hk. apply served_keeps_held. auto.
      * unfold BFA_getRawBlock. unfold bind at 1. unfold get at 1.
        rewrite Hc. unfold bind at 1. rewrite Hg.
        unfold bind at 1. unfold deref. by rewrite Hh.
    + by rewrite (BFA_getRawBlock_slow_throw _ _ _ _ _ _ _ _ _ _ _ _ Hc Hg).
    + unfold BFA_getRawBlock. unfold bind at 1. unfold get at 1.
      rewrite Hc. unfold bind at 1. by rewrite Hg.
Qed.

End CallFacts.


(** * Further properties of the code *)

(** ** Move and destruction of a region *)

Section OwnershipFacts.

Implicit Types (fm : FileMapObj) (a : gmap nat (list memval)).

(** X1.  The move constructor hands the buffer, its size, the file index and
    the tag over to the new object, starts its usage mark again at 0, and
    leaves the source without a buffer.  Destroying the two objects, in
    either order, releases the block exactly once and never releases a
    dead block; destroying the source alone releases nothing. *)
Theorem move_then_destroy fm a (p : nat) :
  obj_filemap_ fm = Some p →
  is_Some (a !! p) →
  let target := (FileMap_move fm).1 in
  let source := (FileMap_move fm).2 in
  obj_filemap_ target = Some p
  ∧ obj_mapsize_ target = obj_mapsize_ fm
  ∧ obj_fnum_ target = obj_fnum_ fm
  ∧ obj_fetch_ target = obj_fetch_ fm
  ∧ obj_lastSeenCumulated_ target = 0
  ∧ obj_filemap_ source = None
  ∧ FileMap_destroy source a = Some (source, a)
  ∧ snd <$> (FileMap_destroy source a ≫= λ r, FileMap_destroy target r.2)
    = Some (delete p a)
  ∧ snd <$> (FileMap_destroy target a ≫= λ r, FileMap_destroy source r.2)
    = Some (delete p a).
Proof.
  intros Hp [x Hx]. simpl. rewrite Hp.
  repeat split.
  - unfold FileMap_destroy, arena_free. simpl. by rewrite Hx.
  - unfold FileMap_destroy, arena_free. simpl. by rewrite Hx.
Qed.

(** Two objects that share one buffer, which is what a copy instead of
    the move would give: the second destruction releases a dead block. *)
Lemma destroy_alias_undefined fm a a' fm' (p : nat) :
  obj_filemap_ fm = Some p →
  FileMap_destroy fm a = Some (fm', a') →
  FileMap_destroy fm a' = None.
Proof.
  intros Hp. unfold FileMap_destroy, arena_free. rewrite Hp. simpl.
  destruct (a !! p); simpl; [|done]. intros [= <- <-].
  by rewrite lookup_delete_eq.
Qed.

End OwnershipFacts.

(** ** getFileMap: loading, repetition, the pending slot *)

Lemma set_fetch_accessed_id (fm : FileMap) :
  fetch_ fm = FETCH_ACCESSED → set_fetch FETCH_ACCESSED fm = fm.
Proof. destruct fm as [b m f k t]. simpl. by intros ->. Qed.

Lemma set_heap_id (s : State) : set_heap (heap s) s = s.
Proof. by destruct s. Qed.

Section GetFileMapMore.

Variable w : World.
Variable blkFiles_ : list BlkFile.
Variable prefetch_ : BFA_PREFETCH.

Local Abbreviation getFileMap := (getFileMap w blkFiles_ prefetch_).
Local Abbreviation nextFnum_of := (nextFnum_of blkFiles_ prefetch_).
Local Abbreviation signalled := (signalled blkFiles_ prefetch_).

(** The two ways [getFileMap] returns. *)
Lemma getFileMap_Ok_inv (s s' : State) (fnum : Z) (lk : bool) (l : loc) :
  getFileMap fnum lk s = Ok l s' →
  (∃ fm, blkMaps_ s !! fnum = Some l ∧ heap s !! l = Some fm
         ∧ s' = touched l fm (signalled fm lk fnum s))
  ∨ (∃ blk fm, blkMaps_ s !! fnum = None
               ∧ vec_at blkFiles_ fnum = Some blk
               ∧ FileMap_new w blk = inr fm
               ∧ l = length (heap s)
               ∧ s' = touched l fm
                        (signalled fm lk fnum
                           (set_blkMaps (<[fnum := l]> (blkMaps_ s))
                              (set_heap (heap s ++ [fm]) s)))).
Proof.
  destruct (blkMaps_ s !! fnum) as [l0|] eqn:Ht.
  - destruct (heap s !! l0) as [fm|] eqn:Hh.
    + rewrite (getFileMap_hit _ _ _ _ _ _ _ _ Ht Hh). intros [= <- <-].
      left. eauto.
    + unfold getFileMap. unfold_M. simpl. rewrite Ht. simpl. by rewrite Hh.
  - destruct (vec_at blkFiles_ fnum) as [blk|] eqn:Hv.
    + destruct (FileMap_new w blk) as [e|fm] eqn:Hn.
      * by rewrite (getFileMap_load_throws _ _ _ _ _ _ _ _ Ht Hv Hn).
      * rewrite (getFileMap_miss _ _ _ _ _ _ _ _ Ht Hv Hn). intros [= <- <-].
        right. exists blk, fm. done.
    + unfold getFileMap. unfold_M. simpl. by rewrite Ht, Hv.
Qed.

Lemma signalled_fields (s : State) (fm : FileMap) (lk : bool) (fnum : Z) :
  heap (signalled fm lk fnum s) = heap s
  ∧ cells (signalled fm lk fnum s) = cells s
  ∧ blkMaps_ (signalled fm lk fnum s) = blkMaps_ s
  ∧ lastSeenCumulative_ (signalled fm lk fnum s) = lastSeenCumulative_ s
  ∧ nextThreshold_ (signalled fm lk fnum s) = nextThreshold_ s
  ∧ (prefetchFileNum_ (signalled fm lk fnum s) =
       if negb (is_accessed (fetch_ fm)) && prefetching prefetch_ && lk
       then nextFnum_of fnum else prefetchFileNum_ s).
Proof.
  unfold signalled.
  destruct (negb (is_accessed (fetch_ fm)) && prefetching prefetch_);
    [destruct lk|]; done.
Qed.

(** After [getFileMap] has returned: the slot holds the location
    returned, whose region is tagged [FETCH_ACCESSED]. *)
Lemma getFileMap_post (s s' : State) (fnum : Z) (lk : bool) (l : loc) :
  getFileMap fnum lk s = Ok l s' →
  blkMaps_ s' !! fnum = Some l
  ∧ ∃ fm, heap s' !! l = Some fm ∧ fetch_ fm = FETCH_ACCESSED.
Proof.
  intros [(fm & Ht & Hh & ->)|(blk & fm & Ht & Hv & Hn & -> & ->)]%getFileMap_Ok_inv.
  - destruct (signalled_fields s fm lk fnum) as (Eh & _ & Et & _).
    unfold touched. simpl. rewrite Et, Eh. split; [done|].
    exists (set_fetch FETCH_ACCESSED fm). split; [|done].
    apply list_lookup_insert_eq, lookup_lt_is_Some. eauto.
  - set (s0 := set_blkMaps _ _).
    destruct (signalled_fields s0 fm lk fnum) as (Eh & _ & Et & _).
    unfold touched. simpl. rewrite Et, Eh. subst s0. simpl.
    split; [by rewrite lookup_insert_eq|].
    exists (set_fetch FETCH_ACCESSED fm). split; [|done].
    apply list_lookup_insert_eq. rewrite length_app. simpl. lia.
Qed.

(** X4.  [getFileMap] is idempotent: called again for the same index, with the
    prefetch mutex free or not, it returns the same region and changes
    nothing; in particular it signals the prefetch thread no second
    time. *)
Theorem getFileMap_idempotent (s s' : State) (fnum : Z) (lk lk' : bool)
    (l : loc) :
  getFileMap fnum lk s = Ok l s' →
  getFileMap fnum lk' s' = Ok l s'.
Proof.
  intros (Ht & fm & Hh & Hf)%getFileMap_post.
  rewrite (getFileMap_hit _ _ _ _ _ _ _ _ Ht Hh). f_equal.
  assert (signalled fm lk' fnum s' = s') as ->.
  { unfold signalled. by rewrite Hf. }
  unfold touched. rewrite (set_fetch_accessed_id _ Hf).
  rewrite list_insert_id by done. apply set_heap_id.
Qed.

(** X5.  [getFileMap] builds a region only on a miss.  For a resident index
    the table and the size of the heap are as before; for an index that
    is not resident exactly one region is appended to the heap and put
    in the slot of the index, the table growing by one entry.  In both
    cases every other region is left as it was and nothing leaves the
    table. *)
Theorem getFileMap_loads_on_miss_only (s s' : State) (fnum : Z)
    (lk : bool) (l : loc) :
  getFileMap fnum lk s = Ok l s' →
  (is_Some (blkMaps_ s !! fnum) →
     blkMaps_ s' = blkMaps_ s ∧ length (heap s') = length (heap s))
  ∧ (blkMaps_ s !! fnum = None →
     l = length (heap s)
     ∧ blkMaps_ s' = <[fnum := l]> (blkMaps_ s)
     ∧ length (heap s') = S (length (heap s))
     ∧ size (blkMaps_ s') = S (size (blkMaps_ s)))
  ∧ (∀ l' fm, l' ≠ l → heap s !! l' = Some fm → heap s' !! l' = Some fm)
  ∧ (∀ k l', blkMaps_ s !! k = Some l' → blkMaps_ s' !! k = Some l').
Proof.
  intros [(fm & Ht & Hh & ->)|(blk & fm & Ht & Hv & Hn & -> & ->)]%getFileMap_Ok_inv.
  - destruct (signalled_fields s fm lk fnum) as (Eh & _ & Et & _).
    unfold touched. simpl. rewrite Et, Eh.
    split; [|split; [|split]].
    + intros _. by rewrite length_insert.
    + by rewrite Ht.
    + intros l' x Hne Hx. by rewrite list_lookup_insert_ne.
    + done.
  - set (s0 := set_blkMaps _ _).
    destruct (signalled_fields s0 fm lk fnum) as (Eh & _ & Et & _).
    unfold touched. simpl. rewrite Et, Eh. subst s0. simpl.
    split; [|split; [|split]].
    + rewrite Ht. by intros [? [=]].
    + intros _. rewrite length_insert, length_app. simpl.
      rewrite map_size_insert_None by done. repeat split. lia.
    + intros l' x Hne Hx. rewrite list_lookup_insert_ne by done.
      by apply lookup_app_l_Some.
    + intros k l' Hk. rewrite lookup_insert_ne; [done|]. congruence.
Qed.

(** X6.  The signal is dropped, and the pending slot keeps its value, when the
    prefetch mutex is busy, when prefetching is off, and when the region
    was already handed out; the clock, the trigger and the caller's
    cells are never written by [getFileMap]. *)
Theorem getFileMap_signal_dropped (s s' : State) (fnum : Z) (lk : bool)
    (l : loc) :
  getFileMap fnum lk s = Ok l s' →
  (lk = false ∨ prefetch_ = PREFETCH_NONE
   ∨ (∃ l0 fm, blkMaps_ s !! fnum = Some l0 ∧ heap s !! l0 = Some fm
               ∧ fetch_ fm = FETCH_ACCESSED) →
   prefetchFileNum_ s' = prefetchFileNum_ s)
  ∧ lastSeenCumulative_ s' = lastSeenCumulative_ s
  ∧ nextThreshold_ s' = nextThreshold_ s
  ∧ cells s' = cells s.
Proof.
  intros [(fm & Ht & Hh & ->)|(blk & fm & Ht & Hv & Hn & -> & ->)]%getFileMap_Ok_inv.
  - destruct (signalled_fields s fm lk fnum)
      as (_ & Ec & _ & Ecl & Ent & Epf).
    unfold touched. simpl. rewrite Ec, Ecl, Ent, Epf.
    split; [|done]. intros [->|[->|(l0 & fm0 & Ht0 & Hh0 & Hf0)]].
    + by rewrite andb_false_r.
    + simpl. by rewrite andb_false_r.
    + assert (fm0 = fm) as -> by congruence. by rewrite Hf0.
  - set (s0 := set_blkMaps _ _).
    destruct (signalled_fields s0 fm lk fnum)
      as (_ & Ec & _ & Ecl & Ent & Epf).
    unfold touched. simpl. rewrite Ec, Ecl, Ent, Epf. subst s0. simpl.
    split; [|done]. intros [->|[->|(l0 & fm0 & Ht0 & _)]].
    + by rewrite andb_false_r.
    + simpl. by rewrite andb_false_r.
    + congruence.
Qed.

End GetFileMapMore.

(** ** getRawBlock: what one call does to the table, the trigger and the
    container *)

Section GetRawBlockMore.

Variable w : World.
Variable blkFiles_ : list BlkFile.
Variable prefetch_ : BFA_PREFETCH.
Variable threshold_ : Z.

Local Abbreviation getFileMap := (getFileMap w blkFiles_ prefetch_).
Local Abbreviation BFA_getRawBlock :=
  (BFA_getRawBlock w blkFiles_ prefetch_ threshold_).
Local Abbreviation served := (served threshold_).
Local Abbreviation sweep := (sweep threshold_).
Local Abbreviation evictable := (evictable threshold_).

Lemma served_stamped (l : loc) (fm : FileMap) (size : Z)
    (fmpPtr : option FileMapContainer) (s : State) :
  served l fm size fmpPtr s =
    if nextThreshold_ s <=? wrap64 (lastSeenCumulative_ s + size)
    then sweep (stamped l fm size fmpPtr s)
    else stamped l fm size fmpPtr s.
Proof. unfold served, stamped. by destruct fmpPtr. Qed.

Lemma stamped_fields (l : loc) (fm : FileMap) (size : Z)
    (fmpPtr : option FileMapContainer) (s : State) :
  heap (stamped l fm size fmpPtr s) =
    <[l := set_lastSeenCumulated (wrap64 (lastSeenCumulative_ s + size)) fm]>
      (heap s)
  ∧ cells (stamped l fm size fmpPtr s) =
      match fmpPtr with
      | Some c => <[current_ c := l]> (cells s)
      | None => cells s
      end
  ∧ blkMaps_ (stamped l fm size fmpPtr s) = blkMaps_ s
  ∧ lastSeenCumulative_ (stamped l fm size fmpPtr s) =
      wrap64 (lastSeenCumulative_ s + size)
  ∧ nextThreshold_ (stamped l fm size fmpPtr s) = nextThreshold_ s
  ∧ prefetchFileNum_ (stamped l fm size fmpPtr s) = prefetchFileNum_ s.
Proof. unfold stamped. by destruct fmpPtr. Qed.

(** The two ways [getRawBlock] returns. *)
Lemma BFA_getRawBlock_Ok_inv (s s' : State) (fnum offset size : Z)
    (fmpPtr : option FileMapContainer) (lk : bool) (bdr : BinaryDataRef) :
  BFA_getRawBlock fnum offset size fmpPtr lk s = Ok bdr s' →
  ∃ (l : loc) (fm : FileMap) (s1 : State),
    (from_container fnum fmpPtr s = Some l ∧ s1 = s
     ∨ from_container fnum fmpPtr s = None ∧ getFileMap fnum lk s = Ok l s1)
    ∧ heap s1 !! l = Some fm
    ∧ bdr = view fm offset size
    ∧ s' = served l fm size fmpPtr s1.
Proof.
  destruct (from_container fnum fmpPtr s) as [l0|] eqn:Hc.
  - pose proof Hc as (c & p & fm & _ & _ & _ & Hh & _)%from_container_Some.
    rewrite (BFA_getRawBlock_fast _ _ _ _ _ _ _ _ _ _ _ _ Hc Hh).
    intros [= <- <-]. exists l0, fm, s. split; [by left|done].
  - destruct (getFileMap fnum lk s) as [l0 s1|e s1|] eqn:Hg.
    + destruct (heap s1 !! l0) as [fm|] eqn:Hh.
      * rewrite (BFA_getRawBlock_slow _ _ _ _ _ _ _ _ _ _ _ _ _ Hc Hg Hh).
        intros [= <- <-]. exists l0, fm, s1. split; [by right|done].
      * unfold BFA_getRawBlock. unfold bind at 1. unfold get at 1.
        rewrite Hc. unfold bind at 1. rewrite Hg.
        unfold bind at 1. unfold deref. by rewrite Hh.
    + by rewrite (BFA_getRawBlock_slow_throw _ _ _ _ _ _ _ _ _ _ _ _ Hc Hg).
    + unfold BFA_getRawBlock. unfold bind at 1. unfold get at 1.
      rewrite Hc. unfold bind at 1. by rewrite Hg.
Qed.

(** X8.  Below the trigger a call evicts nothing: when the clock, once the
    bytes of the call are added, is still under [nextThreshold_], every
    entry of the table is kept and the trigger is not moved. *)
Theorem no_sweep_below_trigger (s s' : State) (fnum offset size : Z)
    (fmpPtr : option FileMapContainer) (lk : bool) (bdr : BinaryDataRef) :
  BFA_getRawBlock fnum offset size fmpPtr lk s = Ok bdr s' →
  wrap64 (lastSeenCumulative_ s + size) < nextThreshold_ s →
  nextThreshold_ s' = nextThreshold_ s
  ∧ ∀ k l, blkMaps_ s !! k = Some l → blkMaps_ s' !! k = Some l.
Proof.
  intros (l & fm & s1 & Hpath & Hh & -> & ->)%BFA_getRawBlock_Ok_inv Hlt.
  assert (lastSeenCumulative_ s1 = lastSeenCumulative_ s
          ∧ nextThreshold_ s1 = nextThreshold_ s
          ∧ ∀ k l', blkMaps_ s !! k = Some l' → blkMaps_ s1 !! k = Some l')
    as (Ec & Ent & Hmono).
  { destruct Hpath as [[_ ->]|[_ Hg]]; [done|].
    destruct (getFileMap_signal_dropped _ _ _ _ _ _ _ _ Hg) as (_ & ? & ? & _).
    destruct (getFileMap_loads_on_miss_only _ _ _ _ _ _ _ _ Hg)
      as (_ & _ & _ & ?). done. }
  rewrite served_stamped, Ec, Ent.
  destruct (Z.leb_spec (nextThreshold_ s)
              (wrap64 (lastSeenCumulative_ s + size))); [lia|].
  destruct (stamped_fields l fm size fmpPtr s1) as (_ & _ & -> & _ & -> & _).
  split; [done|]. auto.
Qed.

(** X9.  After a call has returned the trigger is ahead of the clock again,
    for a positive threshold and as long as clock and threshold do not
    overflow 64 bits: the sweep, when it runs, sets the trigger to
    [clock + threshold_]. *)
Theorem trigger_ahead_of_clock (s s' : State) (fnum offset size : Z)
    (fmpPtr : option FileMapContainer) (lk : bool) (bdr : BinaryDataRef) :
  BFA_getRawBlock fnum offset size fmpPtr lk s = Ok bdr s' →
  0 < threshold_ →
  0 ≤ lastSeenCumulative_ s + size →
  lastSeenCumulative_ s + size + threshold_ < 2 ^ 64 →
  lastSeenCumulative_ s' = lastSeenCumulative_ s + size
  ∧ lastSeenCumulative_ s' < nextThreshold_ s'
  ∧ (nextThreshold_ s' = nextThreshold_ s
     ∨ nextThreshold_ s' = lastSeenCumulative_ s' + threshold_).
Proof.
  intros (l & fm & s1 & Hpath & Hh & -> & ->)%BFA_getRawBlock_Ok_inv
         HT H0 Hov.
  assert (lastSeenCumulative_ s1 = lastSeenCumulative_ s
          ∧ nextThreshold_ s1 = nextThreshold_ s) as (Ec & Ent).
  { destruct Hpath as [[_ ->]|[_ Hg]]; [done|].
    by destruct (getFileMap_signal_dropped _ _ _ _ _ _ _ _ Hg)
      as (_ & ? & ? & _). }
  rewrite served_stamped, Ec, Ent.
  rewrite (wrap64_small (lastSeenCumulative_ s + size)) by lia.
  destruct (stamped_fields l fm size fmpPtr s1) as (_ & _ & _ & Ecl & En & _).
  rewrite Ec, wrap64_small in Ecl by lia. rewrite Ent in En.
  destruct (Z.leb_spec (nextThreshold_ s) (lastSeenCumulative_ s + size)).
  - destruct (sweep_spec threshold_ (stamped l fm size fmpPtr s1))
      as (_ & _ & -> & -> & _).
    rewrite Ecl. rewrite wrap64_small by lia.
    split; [done|]. split; [lia|]. by right.
  - rewrite Ecl, En. split; [done|]. split; [lia|]. by left.
Qed.

(** X10.  The region that has just served a call through [getFileMap] is not
    evicted by the sweep of that call: it is resident when the call
    returns, stamped with the clock (threshold not negative, no overflow
    of 64 bits). *)
Theorem served_region_stays_resident (s s' : State) (fnum offset size : Z)
    (fmpPtr : option FileMapContainer) (lk : bool) (bdr : BinaryDataRef) :
  BFA_getRawBlock fnum offset size fmpPtr lk s = Ok bdr s' →
  from_container fnum fmpPtr s = None →
  0 ≤ threshold_ →
  0 ≤ lastSeenCumulative_ s + size →
  lastSeenCumulative_ s + size + threshold_ < 2 ^ 64 →
  ∃ (l : loc) (fm : FileMap),
    blkMaps_ s' !! fnum = Some l
    ∧ heap s' !! l = Some fm
    ∧ bdr = view fm offset size
    ∧ lastSeenCumulated_ fm = lastSeenCumulative_ s'.
Proof.
  intros (l & fm & s1 & Hpath & Hh & -> & ->)%BFA_getRawBlock_Ok_inv
         Hc HT H0 Hov.
  destruct Hpath as [[Hc' _]|[_ Hg]]; [congruence|].
  destruct (getFileMap_signal_dropped _ _ _ _ _ _ _ _ Hg) as (_ & Ec & _ & _).
  destruct (getFileMap_post _ _ _ _ _ _ _ _ Hg) as (Ht & _).
  exists l, (set_lastSeenCumulated (lastSeenCumulative_ s + size) fm).
  destruct (stamped_fields l fm size fmpPtr s1)
    as (Eh & _ & Et & Ecl & _ & _).
  rewrite Ec, wrap64_small in Eh, Ecl by lia.
  assert (heap (stamped l fm size fmpPtr s1) !! l
          = Some (set_lastSeenCumulated (lastSeenCumulative_ s + size) fm))
    as Hl.
  { rewrite Eh. apply list_lookup_insert_eq, lookup_lt_is_Some. eauto. }
  rewrite served_stamped.
  destruct (nextThreshold_ s1 <=? wrap64 (lastSeenCumulative_ s1 + size)).
  - destruct (sweep_spec threshold_ (stamped l fm size fmpPtr s1))
      as (-> & _ & -> & _ & _ & Hlk).
    rewrite Hlk, Et, Ht, Ecl.
    assert (evictable (stamped l fm size fmpPtr s1) l = false) as ->.
    { unfold evictable. rewrite Hl. unfold stale. simpl. rewrite Ecl.
      rewrite wrap64_small by lia.
      destruct (Z.ltb_spec (lastSeenCumulative_ s + size + threshold_)
                  (lastSeenCumulative_ s + size)); [lia|done]. }
    done.
  - by rewrite Et, Ht, Ecl.
Qed.

(** X11.  A call with a container leaves in [current_] the region that served
    it and writes no other cell of the caller; the next call for the
    same index with [prev_] on that cell is served from that same
    region, without [getFileMap], when the region carries the index
    asked for. *)
Theorem container_remembers_region (s s' : State) (fnum offset size : Z)
    (c : FileMapContainer) (lk : bool) (bdr : BinaryDataRef) :
  BFA_getRawBlock fnum offset size (Some c) lk s = Ok bdr s' →
  ∃ (l : loc) (fm : FileMap),
    cells s' !! current_ c = Some l
    ∧ heap s' !! l = Some fm
    ∧ bdr = view fm offset size
    ∧ (∀ c', c' ≠ current_ c → cells s' !! c' = cells s !! c')
    ∧ (fnum_ fm = fnum →
       ∀ c2, prev_ c2 = Some (current_ c) →
             from_container fnum (Some c2) s' = Some l).
Proof.
  intros (l & fm & s1 & Hpath & Hh & -> & ->)%BFA_getRawBlock_Ok_inv.
  assert (cells s1 = cells s) as Ec.
  { destruct Hpath as [[_ ->]|[_ Hg]]; [done|].
    by destruct (getFileMap_signal_dropped _ _ _ _ _ _ _ _ Hg)
      as (_ & _ & _ & ?). }
  set (fm' := set_lastSeenCumulated
                (wrap64 (lastSeenCumulative_ s1 + size)) fm).
  destruct (stamped_fields l fm size (Some c) s1) as (Eh & Ece & _).
  assert (heap (served l fm size (Some c) s1) = <[l := fm']> (heap s1)
          ∧ cells (served l fm size (Some c) s1)
            = <[current_ c := l]> (cells s)) as (Eh' & Ec').
  { rewrite served_stamped.
    destruct (nextThreshold_ s1 <=? wrap64 (lastSeenCumulative_ s1 + size)).
    - destruct (sweep_spec threshold_ (stamped l fm size (Some c) s1))
        as (-> & -> & _). by rewrite Eh, Ece, Ec.
    - by rewrite Eh, Ece, Ec. }
  assert (heap (served l fm size (Some c) s1) !! l = Some fm') as Hl.
  { rewrite Eh'. apply list_lookup_insert_eq, lookup_lt_is_Some. eauto. }
  exists l, fm'. rewrite Ec'.
  split; [by rewrite lookup_insert_eq|]. split; [done|]. split; [done|].
  split; [intros c' Hne; by rewrite lookup_insert_ne|].
  intros Hf c2 Hp. apply from_container_Some.
  exists c2, (current_ c), fm'. rewrite Ec'.
  split; [done|]. split; [done|]. split; [by rewrite lookup_insert_eq|].
  done.
Qed.

End GetRawBlockMore.

(** ** The sweep, again *)

Lemma State_eq (s s' : State) :
  heap s = heap s' → cells s = cells s' → blkMaps_ s = blkMaps_ s' →
  lastSeenCumulative_ s = lastSeenCumulative_ s' →
  nextThreshold_ s = nextThreshold_ s' →
  prefetchFileNum_ s = prefetchFileNum_ s' →
  s = s'.
Proof. destruct s, s'. simpl. by intros -> -> -> -> -> ->. Qed.

(** X12.  The sweep only removes entries of the table, and it is idempotent: a
    second sweep at the same clock finds nothing more to evict and
    leaves the state as the first one left it. *)
Theorem sweep_idempotent (threshold_ : Z) (s : State) :
  sweep threshold_ (sweep threshold_ s) = sweep threshold_ s
  ∧ ∀ k l, blkMaps_ (sweep threshold_ s) !! k = Some l →
           blkMaps_ s !! k = Some l.
Proof.
  split; [|intros k l Hk; by apply sweep_lookup_Some in Hk as [? _]].
  destruct (sweep_spec threshold_ s) as (Hh & Hc & Hcl & Hnt & Hpf & Hlk).
  destruct (sweep_spec threshold_ (sweep threshold_ s))
    as (Hh2 & Hc2 & Hcl2 & Hnt2 & Hpf2 & Hlk2).
  apply State_eq; try done.
  apply map_eq. intros k. rewrite Hlk2.
  destruct (blkMaps_ (sweep threshold_ s) !! k) as [l|] eqn:Hk; [|done].
  apply sweep_lookup_Some in Hk as [Hk He].
  assert (evictable threshold_ (sweep threshold_ s) l = false) as ->;
    [|done].
  unfold evictable. rewrite Hh.
  rewrite (use_count_sweep threshold_ s l He).
  unfold evictable in He.
  destruct (heap s !! l) as [fm|]; [|done].
  unfold stale in *. by rewrite Hcl.
Qed.

(** ** dropFileMap *)

(** X13.  [dropFileMap] removes the entry of the index whatever the mark of its
    region and however many pointers hold it, touches no other entry and
    nothing else of the state, and changes nothing at all when the index
    is not resident. *)
Theorem dropFileMap_forced (s : State) (fnum : Z) :
  ∃ s' : State,
    dropFileMap fnum s = Ok tt s'
    ∧ blkMaps_ s' !! fnum = None
    ∧ (∀ k, k ≠ fnum → blkMaps_ s' !! k = blkMaps_ s !! k)
    ∧ heap s' = heap s ∧ cells s' = cells s
    ∧ lastSeenCumulative_ s' = lastSeenCumulative_ s
    ∧ nextThreshold_ s' = nextThreshold_ s
    ∧ prefetchFileNum_ s' = prefetchFileNum_ s
    ∧ (blkMaps_ s !! fnum = None → s' = s).
Proof.
  eexists. split; [reflexivity|]. simpl.
  split; [apply lookup_delete_eq|].
  split; [intros k Hk; by apply lookup_delete_ne|].
  repeat split. intros Hn. apply State_eq; try done. simpl.
  by apply delete_id.
Qed.

Section DropFacts.

Variable w : World.
Variable blkFiles_ : list BlkFile.
Variable prefetch_ : BFA_PREFETCH.
Variable threshold_ : Z.

(** X14.  A container outlives [dropFileMap]: when [prev_] points to a cell
    that holds a region of the index, a [getRawBlock] issued after the
    index was dropped is still served from that region; nothing is
    loaded and the index stays absent from the table. *)
Theorem container_serves_dropped_region (s : State) (fnum offset size : Z)
    (c : FileMapContainer) (p : nat) (l : loc) (fm : FileMap) (lk : bool) :
  prev_ c = Some p →
  cells s !! p = Some l →
  heap s !! l = Some fm →
  fnum_ fm = fnum →
  ∃ s1 s2 : State,
    dropFileMap fnum s = Ok tt s1
    ∧ BFA_getRawBlock w blkFiles_ prefetch_ threshold_
        fnum offset size (Some c) lk s1 = Ok (view fm offset size) s2
    ∧ blkMaps_ s2 !! fnum = None
    ∧ length (heap s2) = length (heap s).
Proof.
  intros Hp Hc Hh Hf.
  destruct (dropFileMap_forced s fnum)
    as (s1 & Hd & Hn & _ & Eh & Ec & _).
  exists s1. eexists. split; [done|].
  assert (from_container fnum (Some c) s1 = Some l) as Hfc.
  { apply from_container_Some. exists c, p, fm. by rewrite Ec, Eh. }
  rewrite <- Eh in Hh.
  rewrite (BFA_getRawBlock_fast w blkFiles_ prefetch_ threshold_
             s1 fnum offset size (Some c) lk l fm Hfc Hh).
  split; [done|].
  rewrite served_stamped.
  destruct (stamped_fields l fm size (Some c) s1) as (Eh' & _ & Et & _).
  destruct (nextThreshold_ s1 <=? wrap64 (lastSeenCumulative_ s1 + size)).
  - destruct (sweep_spec threshold_ (stamped l fm size (Some c) s1))
      as (-> & _ & _ & _ & _ & Hlk).
    rewrite Hlk, Et, Hn, Eh', length_insert, Eh. done.
  - rewrite Et, Hn, Eh', length_insert, Eh. done.
Qed.

End DropFacts.

(** ** Counting holders *)

Section HoldersMore.

Context `{Countable K}.
Implicit Types (m : gmap K loc) (k : K) (l : loc).

Lemma holders_one m k l :
  m !! k = Some l → (∀ k', m !! k' = Some l → k' = k) →
  holders m l = 1%nat.
Proof.
  intros Hk Huniq. unfold holders.
  assert (filter (λ kv : K * loc, kv.2 = l) m = {[ k := l ]}) as ->;
    [|apply map_size_singleton].
  apply map_eq. intros k'.
  destruct (decide (k' = k)) as [->|Hne].
  - rewrite lookup_singleton_eq. by apply map_lookup_filter_Some.
  - rewrite lookup_singleton_ne by done.
    apply map_lookup_filter_None. right. intros x Hx Hl. simpl in Hl.
    subst x. by apply Hne, Huniq.
Qed.

Lemma holders_zero m l :
  holders m l = 0%nat ↔ ∀ k, m !! k ≠ Some l.
Proof.
  unfold holders. rewrite map_size_empty_iff, map_empty. split.
  - intros Hf k Hk. specialize (Hf k).
    apply map_lookup_filter_None in Hf as [Hf|Hf]; [congruence|].
    by apply (Hf l).
  - intros Hn k. apply map_lookup_filter_None. right.
    intros x Hx Hl. simpl in Hl. subst x. by apply (Hn k).
Qed.

End HoldersMore.

(** ** The shape of the states *)

Section ShapeFacts.

Variable w : World.
Variable blkFiles_ : list BlkFile.
Variable prefetch_ : BFA_PREFETCH.
Variable threshold_ : Z.

Local Abbreviation getFileMap := (getFileMap w blkFiles_ prefetch_).
Local Abbreviation BFA_getRawBlock :=
  (BFA_getRawBlock w blkFiles_ prefetch_ threshold_).
Local Abbreviation exec := (exec w blkFiles_ prefetch_ threshold_).
Local Abbreviation run := (run w blkFiles_ prefetch_ threshold_).

Lemma Wf_new (nt pf : Z) : Wf (BFA_new nt pf).
Proof. split; simpl; intros *; by rewrite lookup_empty. Qed.

(** The heap keeps its size, the cells stay inside it, the table
    shrinks. *)
Lemma Wf_mono (s s' : State) :
  Wf s →
  length (heap s') = length (heap s) →
  (∀ c l, cells s' !! c = Some l → (l < length (heap s))%nat) →
  (∀ k l, blkMaps_ s' !! k = Some l → blkMaps_ s !! k = Some l) →
  Wf s'.
Proof.
  intros [Ht Hc Hi] El Hcells Hsub. split.
  - intros k l Hk. rewrite El. eauto.
  - intros c l Hcl. rewrite El. eauto.
  - intros k k' l Hk Hk'. eauto.
Qed.

(** A new region in the slot [k], over whatever the slot held. *)
Lemma Wf_load (s : State) (k : Z) (fm : FileMap) :
  Wf s →
  Wf (set_blkMaps (<[k := length (heap s)]> (blkMaps_ s))
        (set_heap (heap s ++ [fm]) s)).
Proof.
  intros [Ht Hc Hi]. split; simpl.
  - intros k' l [[_ <-]|[_ Hk]]%lookup_insert_Some;
      rewrite length_app; simpl; [lia|]. apply Ht in Hk. lia.
  - intros c l Hcl. rewrite length_app. apply Hc in Hcl. lia.
  - intros k1 k2 l [[<- <-]|[Hn1 Hk1]]%lookup_insert_Some
                    [[<- E]|[Hn2 Hk2]]%lookup_insert_Some; try done.
    + apply Ht in Hk2. lia.
    + apply Ht in Hk1. lia.
    + eauto.
Qed.

Lemma Wf_getFileMap (s s' : State) (fnum : Z) (lk : bool) (l : loc) :
  Wf s → getFileMap fnum lk s = Ok l s' →
  Wf s' ∧ (l < length (heap s'))%nat.
Proof.
  intros HW Hg.
  destruct (getFileMap_post _ _ _ _ _ _ _ _ Hg) as (_ & fm' & Hl & _).
  split; [|by apply lookup_lt_is_Some; eauto].
  apply getFileMap_Ok_inv in Hg
    as [(fm & Ht & Hh & ->)|(blk & fm & Ht & Hv & Hn & -> & ->)].
  - destruct (signalled_fields blkFiles_ prefetch_ s fm lk fnum)
      as (Eh & Ec & Et & _).
    apply (Wf_mono s); [done| | |]; unfold touched; simpl.
    + by rewrite length_insert, Eh.
    + rewrite Ec. apply HW.
    + by rewrite Et.
  - set (s0 := set_blkMaps _ _).
    destruct (signalled_fields blkFiles_ prefetch_ s0 fm lk fnum)
      as (Eh & Ec & Et & _).
    apply (Wf_mono s0); [by apply Wf_load| | |]; unfold touched; simpl.
    + by rewrite length_insert, Eh.
    + rewrite Ec. apply (Wf_load s fnum fm HW).
    + by rewrite Et.
Qed.

Lemma Wf_served (s : State) (l : loc) (fm : FileMap) (size : Z)
    (fmpPtr : option FileMapContainer) :
  Wf s → (l < length (heap s))%nat →
  Wf (served threshold_ l fm size fmpPtr s).
Proof.
  intros HW Hl.
  destruct (stamped_fields l fm size fmpPtr s) as (Eh & Ec & Et & _).
  assert (Wf (stamped l fm size fmpPtr s)) as HW1.
  { apply (Wf_mono s); [done| | |].
    - by rewrite Eh, length_insert.
    - rewrite Ec. destruct fmpPtr as [c|]; [|apply HW].
      intros c' l' [[_ <-]|[_ Hc']]%lookup_insert_Some; [done|].
      by apply (wf_cells _ HW c').
    - by rewrite Et. }
  rewrite served_stamped.
  destruct (nextThreshold_ s <=? wrap64 (lastSeenCumulative_ s + size));
    [|done].
  destruct (sweep_spec threshold_ (stamped l fm size fmpPtr s))
    as (Eh2 & Ec2 & _).
  apply (Wf_mono (stamped l fm size fmpPtr s)); [done| | |].
  - by rewrite Eh2.
  - rewrite Ec2. apply HW1.
  - intros k l' Hk. by apply sweep_lookup_Some in Hk as [? _].
Qed.

Lemma Wf_exec (c : Call) (s s' : State) :
  Wf s → exec c s = Some s' → Wf s'.
Proof.
  intros HW. destruct c as [fnum offset size fmpPtr lk|fnum| |dst src];
    simpl.
  - destruct (BFA_getRawBlock fnum offset size fmpPtr lk s)
      as [bdr s1|e s1|] eqn:Hg; [| |done]; intros [= <-].
    + apply BFA_getRawBlock_Ok_inv in Hg
        as (l & fm & s0 & Hpath & Hh & _ & ->).
      apply Wf_served; [|by apply lookup_lt_is_Some; eauto].
      destruct Hpath as [[_ ->]|[_ Hg]]; [done|].
      by apply Wf_getFileMap in Hg as [? _].
    + by apply BFA_getRawBlock_Throw_inv in Hg as ->.
  - intros [= <-]. apply (Wf_mono s); [done|done|apply HW|].
    simpl. by intros k l [_ ?]%lookup_delete_Some.
  - assert (∀ s1, prefetchThread_pass w blkFiles_ s = Ok tt s1 → Wf s1)
      as Hpass.
    { intros s1. unfold prefetchThread_pass. unfold_M.
      destruct (prefetchFileNum_ s =? UINT32_MAX); [by intros [= <-]|].
      destruct (vec_at blkFiles_ (prefetchFileNum_ s)); [|done].
      destruct (FileMap_new w b); [done|]. intros [= <-].
      by apply Wf_load. }
    destruct prefetch_; [by intros [= <-]| |];
      (destruct (prefetchThread_pass w blkFiles_ s) as [[] s1|e s1|];
       [|done|done]; intros [= <-]; by apply Hpass).
  - intros [= <-]. unfold caller_assign.
    destruct (src ≫= λ c, cells s !! c) as [l|] eqn:Hs.
    + apply (Wf_mono s); [done|done| |done]. simpl.
      intros c' l' [[_ <-]|[_ Hc']]%lookup_insert_Some.
      * destruct src as [c|]; [|done]. simpl in Hs.
        by apply (wf_cells _ HW c).
      * by apply (wf_cells _ HW c').
    + apply (Wf_mono s); [done|done| |done]. simpl.
      intros c' l' [_ Hc']%lookup_delete_Some. by apply (wf_cells _ HW c').
Qed.

Lemma Wf_run (cs : list Call) :
  ∀ s s', Wf s → run cs s = Some s' → Wf s'.
Proof.
  induction cs as [|c cs IH]; intros s s' HW; simpl.
  - by intros [= <-].
  - destruct (exec c s) as [s1|] eqn:He; [|done].
    apply IH. by eapply Wf_exec.
Qed.

(** X15.  In every state an accessor reaches, whatever the disk and the
    catalog: a resident region is in the heap, it sits in one slot of the
    table only, so that its [use_count] is one more than the number of
    pointers of the caller that hold it; [use_count() == 1] says exactly
    that no pointer outside the table holds the region. *)
Theorem use_count_counts_outside_holders (nt pf : Z) (history : list Call)
    (s : State) (k : Z) (l : loc) :
  run history (BFA_new nt pf) = Some s →
  blkMaps_ s !! k = Some l →
  is_Some (heap s !! l)
  ∧ (∀ k', blkMaps_ s !! k' = Some l → k' = k)
  ∧ use_count s l = S (holders (cells s) l)
  ∧ (use_count s l = 1%nat ↔ ∀ c, cells s !! c ≠ Some l).
Proof.
  intros Hrun Hk.
  assert (Wf s) as HW by (eapply Wf_run; [|exact Hrun]; apply Wf_new).
  assert (∀ k', blkMaps_ s !! k' = Some l → k' = k) as Huniq.
  { intros k' Hk'. by apply (wf_inj _ HW k' k l). }
  assert (use_count s l = S (holders (cells s) l)) as Hu.
  { unfold use_count. by rewrite (holders_one _ _ _ Hk Huniq). }
  split; [apply lookup_lt_is_Some; by apply (wf_table _ HW k)|].
  split; [done|]. split; [done|].
  rewrite Hu, <- holders_zero. lia.
Qed.

End ShapeFacts.

(** ** Histories: the clock, the buffers, the pending slot *)

Section HistoryFacts.

Variable w : World.
Variable blkFiles_ : list BlkFile.
Variable prefetch_ : BFA_PREFETCH.
Variable threshold_ : Z.

Local Abbreviation getFileMap := (getFileMap w blkFiles_ prefetch_).
Local Abbreviation BFA_getRawBlock :=
  (BFA_getRawBlock w blkFiles_ prefetch_ threshold_).
Local Abbreviation exec := (exec w blkFiles_ prefetch_ threshold_).
Local Abbreviation run := (run w blkFiles_ prefetch_ threshold_).
Local Abbreviation bytes_served :=
  (bytes_served w blkFiles_ prefetch_ threshold_).
Local Abbreviation bytes_of_call :=
  (bytes_of_call w blkFiles_ prefetch_ threshold_).

Lemma prefetchThread_pass_fields (s s' : State) :
  prefetchThread_pass w blkFiles_ s = Ok tt s' →
  lastSeenCumulative_ s' = lastSeenCumulative_ s
  ∧ nextThreshold_ s' = nextThreshold_ s
  ∧ prefetchFileNum_ s' = prefetchFileNum_ s
  ∧ cells s' = cells s
  ∧ (∀ l fm, heap s !! l = Some fm → heap s' !! l = Some fm).
Proof.
  unfold prefetchThread_pass. unfold_M.
  destruct (prefetchFileNum_ s =? UINT32_MAX); [by intros [= <-]|].
  destruct (vec_at blkFiles_ (prefetchFileNum_ s)); [|done].
  destruct (FileMap_new w b); [done|]. intros [= <-]. simpl.
  repeat split. intros l fm Hl. by apply lookup_app_l_Some.
Qed.

Lemma exec_clock (c : Call) (s s' : State) :
  exec c s = Some s' →
  0 ≤ lastSeenCumulative_ s < 2 ^ 64 →
  lastSeenCumulative_ s' = wrap64 (lastSeenCumulative_ s + bytes_of_call c s)
  ∧ 0 ≤ lastSeenCumulative_ s' < 2 ^ 64.
Proof.
  intros He Hr.
  assert (lastSeenCumulative_ s' =
            wrap64 (lastSeenCumulative_ s + bytes_of_call c s)) as E.
  { destruct c as [fnum offset size fmpPtr lk|fnum| |dst src];
      simpl in *.
    - destruct (BFA_getRawBlock fnum offset size fmpPtr lk s)
        as [bdr s1|e s1|] eqn:Hg; [| |done]; injection He as <-.
      + by apply BFA_getRawBlock_effect in Hg as [? _].
      + apply BFA_getRawBlock_Throw_inv in Hg as ->.
        by rewrite Z.add_0_r, wrap64_small.
    - injection He as <-. simpl. by rewrite Z.add_0_r, wrap64_small.
    - rewrite Z.add_0_r, wrap64_small by done.
      destruct prefetch_; [by injection He as <-| |];
        (destruct (prefetchThread_pass w blkFiles_ s) as [[] s1|e s1|] eqn:Hp;
         [|done|done]; injection He as <-;
         by apply prefetchThread_pass_fields in Hp as (? & _)).
    - injection He as <-. rewrite Z.add_0_r, wrap64_small by done.
      unfold caller_assign. by destruct (src ≫= λ c, cells s !! c). }
  split; [done|]. rewrite E. unfold wrap64. apply Z.mod_pos_bound. lia.
Qed.

(** X16.  The clock counts the bytes served: after a history on a new
    accessor it reads the sum of the sizes of the [getRawBlock] calls
    that returned, modulo [2 ^ 64].  Calls that raise an exception,
    drops, passes of the prefetch thread and the sweeps add nothing. *)
Theorem clock_is_bytes_served (nt pf : Z) (history : list Call) (s : State) :
  run history (BFA_new nt pf) = Some s →
  lastSeenCumulative_ s = wrap64 (bytes_served history (BFA_new nt pf)).
Proof.
  assert (∀ cs s0 s1,
            0 ≤ lastSeenCumulative_ s0 < 2 ^ 64 →
            run cs s0 = Some s1 →
            lastSeenCumulative_ s1 =
              wrap64 (lastSeenCumulative_ s0 + bytes_served cs s0)) as Hgen.
  { induction cs as [|c cs IH]; intros s0 s1 Hr; simpl.
    - intros [= <-]. by rewrite Z.add_0_r, wrap64_small.
    - destruct (exec c s0) as [s2|] eqn:He; [|done]. intros Hrun.
      destruct (exec_clock _ _ _ He Hr) as [E Hr2].
      rewrite (IH _ _ Hr2 Hrun), E. unfold wrap64.
      rewrite Zplus_mod_idemp_l. f_equal. lia. }
  intros Hrun.
  assert (0 ≤ lastSeenCumulative_ (BFA_new nt pf) < 2 ^ 64) as Hr
    by (simpl; lia).
  by rewrite (Hgen _ _ _ Hr Hrun).
Qed.

Lemma keeps_regions_refl (s : State) : keeps_regions s s.
Proof. intros l fm Hl. eauto. Qed.

Lemma keeps_regions_trans (s1 s2 s3 : State) :
  keeps_regions s1 s2 → keeps_regions s2 s3 → keeps_regions s1 s3.
Proof.
  intros H12 H23 l fm Hl.
  destruct (H12 _ _ Hl) as (fm2 & Hl2 & ? & ? & ?).
  destruct (H23 _ _ Hl2) as (fm3 & Hl3 & ? & ? & ?).
  exists fm3. repeat split; congruence.
Qed.

Lemma keeps_regions_write (s s' : State) (l0 : loc) (fm0 fm0' : FileMap) :
  heap s !! l0 = Some fm0 →
  heap s' = <[l0 := fm0']> (heap s) →
  filemap_ fm0' = filemap_ fm0 → mapsize_ fm0' = mapsize_ fm0 →
  fnum_ fm0' = fnum_ fm0 →
  keeps_regions s s'.
Proof.
  intros Hl0 Eh E1 E2 E3 l fm Hl. rewrite Eh.
  destruct (decide (l = l0)) as [->|Hne].
  - exists fm0'. rewrite list_lookup_insert_eq
      by (apply lookup_lt_is_Some; eauto).
    pose proof (eq_trans (eq_sym Hl) Hl0) as [= ->]. done.
  - exists fm. by rewrite list_lookup_insert_ne.
Qed.

Lemma keeps_regions_same_heap (s s' : State) :
  (∀ l fm, heap s !! l = Some fm → heap s' !! l = Some fm) →
  keeps_regions s s'.
Proof. intros Hh l fm Hl. exists fm. auto. Qed.

Lemma getFileMap_keeps_regions (s s' : State) (fnum : Z) (lk : bool)
    (l : loc) :
  getFileMap fnum lk s = Ok l s' → keeps_regions s s'.
Proof.
  intros [(fm & Ht & Hh & ->)|(blk & fm & Ht & Hv & Hn & -> & ->)]%getFileMap_Ok_inv.
  - destruct (signalled_fields blkFiles_ prefetch_ s fm lk fnum)
      as (Eh & _).
    apply (keeps_regions_write _ _ l fm (set_fetch FETCH_ACCESSED fm));
      try done.
    unfold touched. simpl. by rewrite Eh.
  - set (s0 := set_blkMaps _ _).
    destruct (signalled_fields blkFiles_ prefetch_ s0 fm lk fnum)
      as (Eh & _).
    apply (keeps_regions_trans _ s0).
    + apply keeps_regions_same_heap. intros l fm' Hl. subst s0. simpl.
      by apply lookup_app_l_Some.
    + apply (keeps_regions_write _ _ (length (heap s)) fm
               (set_fetch FETCH_ACCESSED fm)); try done.
      * subst s0. simpl. apply lookup_snoc_Some. by right.
      * unfold touched. simpl. by rewrite Eh.
Qed.

Lemma served_keeps_regions (s : State) (l : loc) (fm : FileMap) (size : Z)
    (fmpPtr : option FileMapContainer) :
  heap s !! l = Some fm →
  keeps_regions s (served threshold_ l fm size fmpPtr s).
Proof.
  intros Hl.
  destruct (stamped_fields l fm size fmpPtr s) as (Eh & _).
  apply (keeps_regions_write _ _ l fm
           (set_lastSeenCumulated
              (wrap64 (lastSeenCumulative_ s + size)) fm));
    [done| |done|done|done].
  rewrite served_stamped.
  destruct (nextThreshold_ s <=? wrap64 (lastSeenCumulative_ s + size)).
  - destruct (sweep_spec threshold_ (stamped l fm size fmpPtr s))
      as (-> & _). exact Eh.
  - exact Eh.
Qed.

Lemma exec_keeps_regions (c : Call) (s s' : State) :
  exec c s = Some s' → keeps_regions s s'.
Proof.
  destruct c as [fnum offset size fmpPtr lk|fnum| |dst src]; simpl.
  - destruct (BFA_getRawBlock fnum offset size fmpPtr lk s)
      as [bdr s1|e s1|] eqn:Hg; [| |done]; intros [= <-].
    + apply BFA_getRawBlock_Ok_inv in Hg
        as (l & fm & s0 & Hpath & Hh & _ & ->).
      apply (keeps_regions_trans _ s0); [|by apply served_keeps_regions].
      destruct Hpath as [[_ ->]|[_ Hg]]; [apply keeps_regions_refl|].
      by eapply getFileMap_keeps_regions.
    + apply BFA_getRawBlock_Throw_inv in Hg as ->. apply keeps_regions_refl.
  - intros [= <-]. by apply keeps_regions_same_heap.
  - destruct prefetch_; [intros [= <-]; apply keeps_regions_refl| |];
      (destruct (prefetchThread_pass w blkFiles_ s) as [[] s1|e s1|] eqn:Hp;
       [|done|done]; intros [= <-]; apply keeps_regions_same_heap;
       by apply prefetchThread_pass_fields in Hp as (_ & _ & _ & _ & ?)).
  - intros [= <-]. apply keeps_regions_same_heap. unfold caller_assign.
    by destruct (src ≫= λ c, cells s !! c).
Qed.

(** X17.  A buffer is never written after its construction, and a region never
    changes its size or its file index: whatever the calls, a region of
    the heap keeps all three.  Only the mark and the tag are written. *)
Theorem buffers_are_immutable (history : list Call) (s s' : State)
    (l : loc) (fm : FileMap) :
  run history s = Some s' →
  heap s !! l = Some fm →
  ∃ fm', heap s' !! l = Some fm'
         ∧ filemap_ fm' = filemap_ fm
         ∧ mapsize_ fm' = mapsize_ fm
         ∧ fnum_ fm' = fnum_ fm.
Proof.
  revert s fm. induction history as [|c cs IH]; intros s fm; simpl.
  - intros [= <-] Hl. eauto.
  - destruct (exec c s) as [s1|] eqn:He; [|done]. intros Hrun Hl.
    destruct (exec_keeps_regions _ _ _ He _ _ Hl) as (fm1 & Hl1 & ? & ? & ?).
    destruct (IH _ _ Hrun Hl1) as (fm' & Hl' & ? & ? & ?).
    exists fm'. repeat split; congruence.
Qed.

End HistoryFacts.

(** ** The prefetch thread and the pending slot *)

Lemma vec_at_is_Some {A} (v : list A) (i : Z) :
  is_Some (vec_at v i) ↔ 0 ≤ i < Z.of_nat (length v).
Proof.
  unfold vec_at. destruct (Z.ltb_spec i 0).
  - split; [by intros [? [=]]|lia].
  - rewrite lookup_lt_is_Some. lia.
Qed.

Lemma FileMap_new_inr (w : World) (blk : BlkFile) (fm : FileMap) :
  FileMap_new w blk = inr fm →
  lastSeenCumulated_ fm = 0 ∧ fetch_ fm = FETCH_FETCHED
  ∧ fnum_ fm = fnum blk ∧ mapsize_ fm = filesize blk.
Proof.
  unfold FileMap_new. destruct (disk w (path blk)); [|done].
  by intros [= <-].
Qed.

Section PrefetchMore.

Variable w : World.
Variable blkFiles_ : list BlkFile.
Variable prefetch_ : BFA_PREFETCH.
Variable threshold_ : Z.

Local Abbreviation getFileMap := (getFileMap w blkFiles_ prefetch_).
Local Abbreviation BFA_getRawBlock :=
  (BFA_getRawBlock w blkFiles_ prefetch_ threshold_).
Local Abbreviation nextFnum_of := (nextFnum_of blkFiles_ prefetch_).
Local Abbreviation exec := (exec w blkFiles_ prefetch_ threshold_).
Local Abbreviation run := (run w blkFiles_ prefetch_ threshold_).
Local Abbreviation prefetchThread_pass := (prefetchThread_pass w blkFiles_).

(** X7.  The index handed to the prefetch thread for an access to a catalog
    index is the sentinel or a catalog index again, in either direction,
    when the catalog indices lie below the sentinel: the prefetch thread
    is never sent outside the catalog. *)
Theorem nextFnum_in_catalog (fnum : Z) :
  is_Some (vec_at blkFiles_ fnum) →
  Z.of_nat (length blkFiles_) ≤ UINT32_MAX →
  nextFnum_of fnum = UINT32_MAX ∨ is_Some (vec_at blkFiles_ (nextFnum_of fnum)).
Proof.
  rewrite !vec_at_is_Some. intros Hf Hl.
  assert (wrap32 (fnum - 1) = UINT32_MAX
          ∨ 0 ≤ wrap32 (fnum - 1) < Z.of_nat (length blkFiles_)) as Hback.
  { destruct (decide (fnum = 0)) as [->|]; [by left|right].
    unfold UINT32_MAX in Hl. rewrite wrap32_small by lia. lia. }
  destruct prefetch_; [done| |done].
  rewrite nextFnum_forward by done.
  destruct (Z.eqb_spec (fnum + 1) (Z.of_nat (length blkFiles_)));
    [by left|right; lia].
Qed.

Lemma served_slot (l : loc) (fm : FileMap) (size : Z)
    (fmpPtr : option FileMapContainer) (s : State) :
  prefetchFileNum_ (served threshold_ l fm size fmpPtr s)
  = prefetchFileNum_ s.
Proof.
  rewrite served_stamped.
  destruct (stamped_fields l fm size fmpPtr s) as (_ & _ & _ & _ & _ & E).
  destruct (nextThreshold_ s <=? wrap64 (lastSeenCumulative_ s + size));
    [|done].
  by destruct (sweep_spec threshold_ (stamped l fm size fmpPtr s))
    as (_ & _ & _ & _ & -> & _).
Qed.

Lemma getFileMap_slot (s s' : State) (fnum : Z) (lk : bool) (l : loc) :
  getFileMap fnum lk s = Ok l s' →
  prefetchFileNum_ s' = prefetchFileNum_ s
  ∨ (prefetching prefetch_ = true ∧ lk = true
     ∧ prefetchFileNum_ s' = nextFnum_of fnum).
Proof.
  intros [(fm & Ht & Hh & ->)|(blk & fm & Ht & Hv & Hn & -> & ->)]%getFileMap_Ok_inv.
  - destruct (signalled_fields blkFiles_ prefetch_ s fm lk fnum)
      as (_ & _ & _ & _ & _ & E).
    unfold touched. simpl. rewrite E.
    destruct (negb (is_accessed (fetch_ fm))), (prefetching prefetch_), lk;
      simpl; auto.
  - set (s0 := set_blkMaps _ _).
    destruct (signalled_fields blkFiles_ prefetch_ s0 fm lk fnum)
      as (_ & _ & _ & _ & _ & E).
    unfold touched. simpl. rewrite E.
    destruct (negb (is_accessed (fetch_ fm))), (prefetching prefetch_), lk;
      simpl; auto.
Qed.

Lemma BFA_getRawBlock_slot (s s' : State) (fnum offset size : Z)
    (fmpPtr : option FileMapContainer) (lk : bool) (bdr : BinaryDataRef) :
  BFA_getRawBlock fnum offset size fmpPtr lk s = Ok bdr s' →
  prefetchFileNum_ s' = prefetchFileNum_ s
  ∨ (prefetching prefetch_ = true ∧ lk = true
     ∧ prefetchFileNum_ s' = nextFnum_of fnum).
Proof.
  intros (l & fm & s1 & Hpath & Hh & _ & ->)%BFA_getRawBlock_Ok_inv.
  rewrite served_slot.
  destruct Hpath as [[_ ->]|[_ Hg]]; [by left|].
  by eapply getFileMap_slot.
Qed.

(** X18.  A pass of the prefetch thread does not clear the pending slot.  So
    when a pass has loaded a file, the next pass, at any wake-up, loads
    the same file once more and puts the new region in the slot of the
    table in place of the one just loaded. *)
Theorem prefetch_pass_repeats (s s1 : State) :
  prefetchFileNum_ s ≠ UINT32_MAX →
  prefetchThread_pass s = Ok tt s1 →
  prefetchFileNum_ s1 = prefetchFileNum_ s
  ∧ blkMaps_ s1 !! prefetchFileNum_ s = Some (length (heap s))
  ∧ ∃ s2 : State,
      prefetchThread_pass s1 = Ok tt s2
      ∧ length (heap s2) = S (S (length (heap s)))
      ∧ blkMaps_ s2 !! prefetchFileNum_ s = Some (S (length (heap s))).
Proof.
  intros Hp. unfold prefetchThread_pass. unfold_M.
  destruct (Z.eqb_spec (prefetchFileNum_ s) UINT32_MAX) as [|_]; [done|].
  destruct (vec_at blkFiles_ (prefetchFileNum_ s)) as [blk|] eqn:Hv;
    [|done].
  destruct (FileMap_new w blk) as [e|fm] eqn:Hn; [done|].
  intros [= <-]. simpl.
  split; [done|]. split; [by rewrite lookup_insert_eq|].
  destruct (Z.eqb_spec (prefetchFileNum_ s) UINT32_MAX) as [|_]; [done|].
  rewrite Hv, Hn. eexists. split; [reflexivity|]. simpl.
  rewrite !length_app. simpl.
  split; [lia|]. rewrite lookup_insert_eq. f_equal. lia.
Qed.

Lemma evictable_intro (s : State) (l : loc) (fm : FileMap) :
  heap s !! l = Some fm → stale threshold_ s fm = true →
  use_count s l = 1%nat → evictable threshold_ s l = true.
Proof. intros Hl Hs Hu. unfold evictable. by rewrite Hl, Hs, Hu. Qed.

(** X19.  A region brought in by the prefetch thread carries the mark 0 of the
    constructor until it is read.  In a state an accessor has reached,
    once the clock is past the threshold, a sweep that runs before the
    first read of the region evicts it. *)
Theorem prefetched_region_evicted_unread (nt pf : Z) (history : list Call)
    (s s1 : State) :
  run history (BFA_new nt pf) = Some s →
  prefetchFileNum_ s ≠ UINT32_MAX →
  prefetchThread_pass s = Ok tt s1 →
  0 ≤ threshold_ < 2 ^ 64 →
  threshold_ < lastSeenCumulative_ s →
  blkMaps_ s1 !! prefetchFileNum_ s = Some (length (heap s))
  ∧ use_count s1 (length (heap s)) = 1%nat
  ∧ blkMaps_ (sweep threshold_ s1) !! prefetchFileNum_ s = None.
Proof.
  intros Hrun Hp Hpass HT Hclock.
  assert (Wf s) as HW by (eapply Wf_run; [|exact Hrun]; apply Wf_new).
  revert Hpass. unfold prefetchThread_pass. unfold_M.
  destruct (Z.eqb_spec (prefetchFileNum_ s) UINT32_MAX) as [|_]; [done|].
  destruct (vec_at blkFiles_ (prefetchFileNum_ s)) as [blk|] eqn:Hv;
    [|done].
  destruct (FileMap_new w blk) as [e|fm] eqn:Hn; [done|].
  intros [= <-].
  set (s1 := set_blkMaps _ _).
  assert (blkMaps_ s1 !! prefetchFileNum_ s = Some (length (heap s))) as Hk
    by (subst s1; simpl; by rewrite lookup_insert_eq).
  assert (use_count s1 (length (heap s)) = 1%nat) as Hu.
  { unfold use_count.
    rewrite (holders_one _ _ _ Hk).
    - assert (holders (cells s1) (length (heap s)) = 0%nat) as ->; [|done].
      apply holders_zero. intros c Hc. subst s1. simpl in Hc.
      apply (wf_cells _ HW) in Hc. lia.
    - intros k'. subst s1. simpl.
      intros [[<- _]|[_ Hk']]%lookup_insert_Some; [done|].
      apply (wf_table _ HW) in Hk'. lia. }
  split; [done|]. split; [done|].
  rewrite (sweep_lookup threshold_ _ _ _ Hk).
  rewrite (evictable_intro s1 (length (heap s)) fm); [done| | |done].
  - subst s1. simpl. apply lookup_snoc_Some. by right.
  - destruct (FileMap_new_inr _ _ _ Hn) as (Hm & _).
    unfold stale. rewrite Hm. simpl. rewrite wrap64_small by lia.
    subst s1. simpl.
    apply Z.ltb_lt. lia.
Qed.

End PrefetchMore.

(** X20.  With prefetching off no call writes the pending slot: after any
    history it holds what it held at the start. *)
Theorem no_prefetch_no_signal (w : World) (blkFiles_ : list BlkFile)
    (threshold_ : Z) (history : list Call) (s s' : State) :
  run w blkFiles_ PREFETCH_NONE threshold_ history s = Some s' →
  prefetchFileNum_ s' = prefetchFileNum_ s.
Proof.
  revert s. induction history as [|c cs IH]; intros s; simpl.
  - by intros [= <-].
  - destruct (exec w blkFiles_ PREFETCH_NONE threshold_ c s)
      as [s1|] eqn:He; [|done].
    intros Hrun. rewrite (IH _ Hrun).
    destruct c as [fnum offset size fmpPtr lk|fnum| |dst src];
      simpl in He.
    + destruct (BFA_getRawBlock w blkFiles_ PREFETCH_NONE threshold_
                  fnum offset size fmpPtr lk s)
        as [bdr s2|e s2|] eqn:Hg; [| |done]; injection He as <-.
      * by apply BFA_getRawBlock_slot in Hg as [?|[[=] _]].
      * by apply BFA_getRawBlock_Throw_inv in Hg as ->.
    + by injection He as <-.
    + by injection He as <-.
    + injection He as <-. unfold caller_assign.
      by destruct (src ≫= λ c, cells s !! c).
Qed.

(** ** No undefined behaviour on catalog indices *)

Section SafetyFacts.

Variable w : World.
Variable blkFiles_ : list BlkFile.
Variable prefetch_ : BFA_PREFETCH.
Variable threshold_ : Z.

Hypothesis Hcat : catalog_ok w blkFiles_.
Hypothesis Hlen : Z.of_nat (length blkFiles_) ≤ UINT32_MAX.

Local Abbreviation Inv := (Inv w blkFiles_).
Local Abbreviation slot_ok := (slot_ok blkFiles_).
Local Abbreviation valid_call := (valid_call blkFiles_).
Local Abbreviation BFA_getRawBlock :=
  (BFA_getRawBlock w blkFiles_ prefetch_ threshold_).
Local Abbreviation exec := (exec w blkFiles_ prefetch_ threshold_).
Local Abbreviation run := (run w blkFiles_ prefetch_ threshold_).

Lemma BFA_getRawBlock_defined (s : State) (fnum offset size : Z)
    (fmpPtr : option FileMapContainer) (lk : bool) :
  Inv s → is_Some (vec_at blkFiles_ fnum) →
  ∃ bdr s', BFA_getRawBlock fnum offset size fmpPtr lk s = Ok bdr s'.
Proof.
  intros HI [blk Hv].
  destruct (from_container fnum fmpPtr s) as [l|] eqn:Hc.
  - pose proof Hc as (c & p & fm & _ & _ & _ & Hh & _)%from_container_Some.
    rewrite (BFA_getRawBlock_fast _ _ _ _ _ _ _ _ _ _ _ _ Hc Hh). eauto.
  - destruct (getFileMap_defined w blkFiles_ prefetch_ Hcat s fnum lk blk
                HI Hv) as (l & s1 & Hg).
    destruct (getFileMap_Inv w blkFiles_ prefetch_ Hcat _ _ _ _ _ HI Hg)
      as (_ & (fm & Hh & _) & _).
    rewrite (BFA_getRawBlock_slow _ _ _ _ _ _ _ _ _ _ _ _ _ Hc Hg Hh). eauto.
Qed.

Lemma exec_safe (c : Call) (s : State) :
  Inv s → slot_ok s → valid_call c →
  ∃ s', exec c s = Some s' ∧ Inv s' ∧ slot_ok s'.
Proof.
  intros HI Hslot Hvalid.
  assert (∀ s', exec c s = Some s' → slot_ok s' →
                ∃ s', exec c s = Some s' ∧ Inv s' ∧ slot_ok s') as Hfin.
  { intros s' He Hs'. exists s'. split; [done|]. split; [|done].
    by apply (exec_Inv w blkFiles_ prefetch_ threshold_ Hcat c s). }
  destruct c as [fnum offset size fmpPtr lk|fnum| |dst src]; simpl in *.
  - destruct (BFA_getRawBlock_defined s fnum offset size fmpPtr lk HI Hvalid)
      as (bdr & s' & Hg).
    rewrite Hg in *. apply (Hfin s'); [done|].
    destruct (BFA_getRawBlock_slot _ _ _ _ _ _ _ _ _ _ _ _ Hg)
      as [E|(_ & _ & E)].
    + unfold slot_ok. by rewrite E.
    + unfold slot_ok. rewrite E. by apply nextFnum_in_catalog.
  - apply (Hfin _ eq_refl). done.
  - destruct prefetch_; [by apply (Hfin _ eq_refl)| |];
      (destruct Hslot as [Hs|[blk Hv]];
       [ rewrite (prefetchThread_pass_idle w blkFiles_ s Hs) in *;
         apply (Hfin _ eq_refl); by left
       | destruct (decide (prefetchFileNum_ s = UINT32_MAX)) as [Hs|Hs];
         [ rewrite (prefetchThread_pass_idle w blkFiles_ s Hs) in *;
           apply (Hfin _ eq_refl); by left
         | destruct (FileMap_new_catalog w blkFiles_ Hcat _ _ Hv)
             as (content & _ & _ & Hn);
           rewrite (prefetchThread_pass_loads w blkFiles_ s blk _ Hs Hv Hn)
             in *;
           apply (Hfin _ eq_refl); right; simpl; eauto ] ]).
  - apply (Hfin _ eq_refl). unfold caller_assign.
    by destruct (src ≫= λ c, cells s !! c).
Qed.

(** X21.  On a catalog that describes the disk, with its indices below the
    sentinel, a history whose reads all name catalog indices never runs
    into undefined behaviour and never makes the prefetch thread fail:
    the run is defined to its end, the prefetch thread having been sent
    to catalog indices only, and from the state reached every read of a
    catalog index returns. *)
Theorem valid_history_is_defined (nt : Z) (history : list Call) :
  Forall valid_call history →
  ∃ s : State,
    run history (BFA_new nt UINT32_MAX) = Some s
    ∧ slot_ok s
    ∧ ∀ fnum offset size fmpPtr lk,
        is_Some (vec_at blkFiles_ fnum) →
        ∃ bdr s', BFA_getRawBlock fnum offset size fmpPtr lk s = Ok bdr s'.
Proof.
  assert (∀ cs s0, Forall valid_call cs → Inv s0 → slot_ok s0 →
            ∃ s, run cs s0 = Some s ∧ Inv s ∧ slot_ok s) as Hgen.
  { induction cs as [|c cs IH]; intros s0 Hall HI Hs; simpl.
    - eauto.
    - apply Forall_cons in Hall as [Hc Hall].
      destruct (exec_safe c s0 HI Hs Hc) as (s1 & -> & HI1 & Hs1).
      by apply IH. }
  intros Hall.
  destruct (Hgen history (BFA_new nt UINT32_MAX) Hall) as (s & Hrun & HI & Hs).
  { apply Inv_new. }
  { by left. }
  exists s. split; [done|]. split; [done|].
  intros. by apply BFA_getRawBlock_defined.
Qed.

End SafetyFacts.

(** ** The further properties on concrete runs *)

Lemma move_then_destroy_witness :
  obj_filemap_ (FileMap_move MoreExamples.obj).1 = Some 7%nat
  ∧ obj_lastSeenCumulated_ (FileMap_move MoreExamples.obj).1 = 0
  ∧ snd <$> (FileMap_destroy (FileMap_move MoreExamples.obj).2
               MoreExamples.arena
             ≫= λ r, FileMap_destroy (FileMap_move MoreExamples.obj).1 r.2)
    = Some (delete 7%nat MoreExamples.arena).
Proof.
  destruct (move_then_destroy MoreExamples.obj MoreExamples.arena 7%nat)
    as (H1 & _ & _ & _ & H5 & _ & _ & H8 & _);
    [reflexivity | eexists; reflexivity |].
  split; [exact H1|]. split; [exact H5 | exact H8].
Defined.

Lemma getFileMap_idempotent_witness :
  getFileMap Examples.good_world Examples.catalog PREFETCH_FORWARD
    0 false (MoreExamples.get0 true).2
  = Ok (MoreExamples.get0 true).1 (MoreExamples.get0 true).2.
Proof.
  apply (getFileMap_idempotent Examples.good_world Examples.catalog
           PREFETCH_FORWARD MoreExamples.new_accessor
           (MoreExamples.get0 true).2 0 true false
           (MoreExamples.get0 true).1).
  vm_compute. reflexivity.
Defined.

Lemma getFileMap_loads_on_miss_only_witness :
  (MoreExamples.get0 true).1 = 0%nat
  ∧ length (heap (MoreExamples.get0 true).2) = 1%nat
  ∧ size (blkMaps_ (MoreExamples.get0 true).2) = 1%nat.
Proof.
  destruct (getFileMap_loads_on_miss_only Examples.good_world
              Examples.catalog PREFETCH_FORWARD MoreExamples.new_accessor
              (MoreExamples.get0 true).2 0 true (MoreExamples.get0 true).1)
    as (_ & H & _); [vm_compute; reflexivity|].
  destruct H as (H1 & _ & H3 & H4); [reflexivity|].
  split; [exact H1|]. split; [exact H3 | exact H4].
Defined.

Lemma getFileMap_signal_dropped_witness :
  prefetchFileNum_ (MoreExamples.get0 false).2 = UINT32_MAX.
Proof.
  destruct (getFileMap_signal_dropped Examples.good_world
              Examples.catalog PREFETCH_FORWARD MoreExamples.new_accessor
              (MoreExamples.get0 false).2 0 false (MoreExamples.get0 false).1)
    as (H & _); [vm_compute; reflexivity|].
  apply H. left. reflexivity.
Defined.

Lemma nextFnum_in_catalog_witness :
  nextFnum_of Examples.catalog PREFETCH_BACKWARD 1 = UINT32_MAX
  ∨ is_Some (vec_at Examples.catalog
               (nextFnum_of Examples.catalog PREFETCH_BACKWARD 1)).
Proof.
  apply (nextFnum_in_catalog Examples.catalog PREFETCH_BACKWARD 1);
    [eexists; reflexivity | unfold UINT32_MAX; simpl; lia].
Defined.

Lemma no_sweep_below_trigger_witness :
  nextThreshold_ (MoreExamples.read0 None).2 = 10.
Proof.
  destruct (no_sweep_below_trigger Examples.good_world Examples.catalog
              PREFETCH_FORWARD 10 MoreExamples.new_accessor
              (MoreExamples.read0 None).2 0 0 2 None true
              (MoreExamples.read0 None).1)
    as (H & _); [vm_compute; reflexivity | reflexivity |].
  exact H.
Defined.

Lemma trigger_ahead_of_clock_witness :
  lastSeenCumulative_ (MoreExamples.read0 None).2
  < nextThreshold_ (MoreExamples.read0 None).2.
Proof.
  destruct (trigger_ahead_of_clock Examples.good_world Examples.catalog
              PREFETCH_FORWARD 10 MoreExamples.new_accessor
              (MoreExamples.read0 None).2 0 0 2 None true
              (MoreExamples.read0 None).1)
    as (_ & H & _);
    [vm_compute; reflexivity | lia | simpl; lia | simpl; lia |].
  exact H.
Defined.

Lemma served_region_stays_resident_witness :
  ∃ (l : loc) (fm : FileMap),
    blkMaps_ (MoreExamples.read0 None).2 !! 0 = Some l
    ∧ heap (MoreExamples.read0 None).2 !! l = Some fm
    ∧ (MoreExamples.read0 None).1 = view fm 0 2
    ∧ lastSeenCumulated_ fm = lastSeenCumulative_ (MoreExamples.read0 None).2.
Proof.
  apply (served_region_stays_resident Examples.good_world Examples.catalog
           PREFETCH_FORWARD 10 MoreExamples.new_accessor
           (MoreExamples.read0 None).2 0 0 2 None true
           (MoreExamples.read0 None).1);
    [vm_compute; reflexivity | reflexivity | lia | simpl; lia | simpl; lia].
Defined.

Lemma container_remembers_region_witness :
  ∃ (l : loc) (fm : FileMap),
    cells (MoreExamples.read0 (Some (mkContainer 3 None))).2 !! 3%nat = Some l
    ∧ heap (MoreExamples.read0 (Some (mkContainer 3 None))).2 !! l = Some fm
    ∧ (MoreExamples.read0 (Some (mkContainer 3 None))).1 = view fm 0 2.
Proof.
  destruct (container_remembers_region Examples.good_world Examples.catalog
              PREFETCH_FORWARD 10 MoreExamples.new_accessor
              (MoreExamples.read0 (Some (mkContainer 3 None))).2 0 0 2
              (mkContainer 3 None) true
              (MoreExamples.read0 (Some (mkContainer 3 None))).1)
    as (l & fm & H1 & H2 & H3 & _); [vm_compute; reflexivity|].
  exists l, fm. split; [exact H1|]. split; [exact H2 | exact H3].
Defined.

Lemma sweep_idempotent_witness :
  sweep 10 (sweep 10 (Examples.one_region 16))
  = sweep 10 (Examples.one_region 16).
Proof.
  exact (proj1 (sweep_idempotent 10 (Examples.one_region 16))).
Defined.

Lemma dropFileMap_forced_witness :
  dropFileMap 5 Examples.both_resident = Ok tt Examples.both_resident.
Proof.
  destruct (dropFileMap_forced Examples.both_resident 5)
    as (s' & H1 & _ & _ & _ & _ & _ & _ & _ & H9).
  rewrite <- (H9 eq_refl) at 2. exact H1.
Defined.

Lemma container_serves_dropped_region_witness :
  ∃ s1 s2 : State,
    dropFileMap 0 Examples.after_history = Ok tt s1
    ∧ BFA_getRawBlock Examples.good_world Examples.catalog PREFETCH_FORWARD 10
        0 1 2 (Some (mkContainer 0 (Some 1%nat))) true s1
      = Ok (view Examples.held_region 1 2) s2
    ∧ blkMaps_ s2 !! 0 = None
    ∧ length (heap s2) = length (heap Examples.after_history).
Proof.
  apply (container_serves_dropped_region Examples.good_world Examples.catalog
           PREFETCH_FORWARD 10 Examples.after_history 0 1 2
           (mkContainer 0 (Some 1%nat)) 1%nat 0%nat Examples.held_region true);
    [reflexivity | vm_compute; reflexivity | vm_compute; reflexivity
    | vm_compute; reflexivity].
Defined.

Lemma use_count_counts_outside_holders_witness :
  use_count Examples.after_history 1%nat
  = S (holders (cells Examples.after_history) 1%nat).
Proof.
  destruct (use_count_counts_outside_holders Examples.good_world
              Examples.catalog PREFETCH_FORWARD 10 10 UINT32_MAX
              Examples.history Examples.after_history 1 1%nat)
    as (_ & _ & H & _); [vm_compute; reflexivity | vm_compute; reflexivity |].
  exact H.
Defined.

Lemma clock_is_bytes_served_witness :
  lastSeenCumulative_ Examples.after_history
  = wrap64 (bytes_served Examples.good_world Examples.catalog
              PREFETCH_FORWARD 10 Examples.history (BFA_new 10 UINT32_MAX)).
Proof.
  apply (clock_is_bytes_served Examples.good_world Examples.catalog
           PREFETCH_FORWARD 10 10 UINT32_MAX Examples.history
           Examples.after_history).
  vm_compute. reflexivity.
Defined.

Lemma buffers_are_immutable_witness :
  ∃ fm' : FileMap,
    heap MoreExamples.after_both !! 0%nat = Some fm'
    ∧ filemap_ fm' = [Byte x01; Byte x02; Byte x03; Byte x04]
    ∧ mapsize_ fm' = 4
    ∧ fnum_ fm' = 0.
Proof.
  apply (buffers_are_immutable Examples.good_world Examples.catalog
           PREFETCH_FORWARD 10 Examples.history Examples.both_resident
           MoreExamples.after_both 0%nat
           (Examples.region0 2 FETCH_ACCESSED));
    [vm_compute; reflexivity | reflexivity].
Defined.

Lemma prefetch_pass_repeats_witness :
  ∃ s2 : State,
    prefetchThread_pass Examples.good_world Examples.catalog
      MoreExamples.pass1 = Ok tt s2
    ∧ length (heap s2) = 4%nat
    ∧ blkMaps_ s2 !! 1 = Some 3%nat.
Proof.
  destruct (prefetch_pass_repeats Examples.good_world Examples.catalog
              Examples.both_resident MoreExamples.pass1)
    as (_ & _ & H); [discriminate | reflexivity |].
  exact H.
Defined.

Lemma prefetched_region_evicted_unread_witness :
  blkMaps_ MoreExamples.prefetched !! 1 = Some 1%nat
  ∧ blkMaps_ (sweep 3 MoreExamples.prefetched) !! 1 = None.
Proof.
  destruct (prefetched_region_evicted_unread Examples.good_world
              Examples.catalog PREFETCH_FORWARD 3 100 UINT32_MAX
              MoreExamples.read_whole MoreExamples.after_read_whole
              MoreExamples.prefetched)
    as (H1 & _ & H3);
    [vm_compute; reflexivity | discriminate | vm_compute; reflexivity
    | lia | reflexivity |].
  split; [exact H1 | exact H3].
Defined.

Lemma no_prefetch_no_signal_witness :
  prefetchFileNum_ MoreExamples.after_boundary = UINT32_MAX.
Proof.
  apply (no_prefetch_no_signal Examples.good_world Examples.catalog 10
           Examples.boundary_history (BFA_new 12 UINT32_MAX)
           MoreExamples.after_boundary).
  vm_compute. reflexivity.
Defined.

Lemma valid_history_is_defined_witness :
  ∃ s : State,
    run Examples.good_world Examples.catalog PREFETCH_FORWARD 10
      Examples.history (BFA_new 10 UINT32_MAX) = Some s
    ∧ slot_ok Examples.catalog s.
Proof.
  destruct (valid_history_is_defined Examples.good_world Examples.catalog
              PREFETCH_FORWARD 10 good_world_catalog_ok) with
    (nt := 10) (history := Examples.history)
    as (s & H1 & H2 & _).
  - unfold UINT32_MAX. simpl. lia.
  - repeat constructor; eexists; reflexivity.
  - exists s. split; [exact H1 | exact H2].
Defined.
